(** * web-serial-plotter: frame decoder, HTTP line splitter, connection
      manager and chart export, embedded from the TypeScript sources. *)

From Stdlib Require Import String Ascii DecimalString ZArith List Bool Lia.
Import ListNotations.

Open Scope Z_scope.

(** ** JavaScript array helpers shared by the embeddings *)

(** [data.length] as a JS number. *)
Definition len {A : Type} (data : list A) : Z := Z.of_nat (length data).

(** [data.slice(a, b)] for [0 <= a]. *)
Definition slice {A : Type} (data : list A) (a b : Z) : list A :=
  firstn (Z.to_nat (b - a)) (skipn (Z.to_nat a) data).

(** * src/utils/cobsDecoder.ts *)

Module Cobs.

(** A byte as the decoder sees it: a JS number in [0, 255]. *)
Definition is_byte (b : Z) : Prop := 0 <= b < 256.

Definition bytes (data : list Z) : Prop := Forall is_byte data.

(** [data[j]]; every read of the decoder is guarded by [j < data.length],
    so the default is never observed. *)
Definition get (data : list Z) (j : Z) : Z := nth (Z.to_nat j) data 0.

(** The result of a call: the returned array, a thrown
    [COBSDecoderError] with its message (the local [output] is dropped
    with the frame), or a loop that ran out of the model's fuel. *)
Inductive outcome : Type :=
| Returned (decoded : list Z)
| COBSDecoderError (message : string)
| OutOfFuel.

(** [Uint8Array.from(output)]: every element is reduced modulo 256. *)
Definition Uint8Array_from (output : list Z) : list Z :=
  map (fun x => x mod 256) output.

(** The inner [for (let j = i + 1; j < nextBlockEnd && j < data.length; j++)]
    loop, pushing [data[j]] on [output]. *)
Fixpoint copy_block (fuel : nat) (data : list Z) (j nextBlockEnd : Z)
  (output : list Z) : list Z :=
  match fuel with
  | O => output
  | S fuel' =>
      if (j <? nextBlockEnd) && (j <? len data)
      then copy_block fuel' data (j + 1) nextBlockEnd (output ++ [get data j])
      else output
  end.

(** The outer [while (i < data.length)] loop. *)
Fixpoint decode_loop (fuel : nat) (data : list Z) (i : Z) (output : list Z)
  : outcome :=
  match fuel with
  | O => OutOfFuel
  | S fuel' =>
      if i <? len data then
        let code := get data i in
        if (code =? 0) || (i + code >? len data + 1)
        then COBSDecoderError "Invalid COBS data"
        else
          let nextBlockEnd := i + code in
          let output1 :=
            copy_block (length data) data (i + 1) nextBlockEnd output in
          let output2 :=
            if (code <? 255) && (nextBlockEnd <? len data)
            then output1 ++ [0] else output1 in
          decode_loop fuel' data nextBlockEnd output2
      else Returned (Uint8Array_from output)
  end.

Definition decodeCOBS (data : list Z) : outcome :=
  decode_loop (S (length data)) data 0 [].

(** *** The offsets at which a length code is read *)

(** A code at offset [i] passes the guard of the loop body. *)
Definition accepted (data : list Z) (i : Z) : Prop :=
  get data i <> 0 /\ i + get data i <= len data + 1.

(** A code at offset [i] trips the guard. *)
Definition rejected (data : list Z) (i : Z) : Prop :=
  get data i = 0 \/ i + get data i > len data + 1.

(** [reads_from data i j]: a run of the loop entered at offset [i] reads a
    length code at offset [j]. *)
Inductive reads_from (data : list Z) : Z -> Z -> Prop :=
| reads_here : forall i, i < len data -> reads_from data i i
| reads_later : forall i j,
    i < len data -> accepted data i ->
    reads_from data (i + get data i) j -> reads_from data i j.

Definition code_read_at (data : list Z) (j : Z) : Prop := reads_from data 0 j.

(** *** The decoder in the words of the specification *)

(** Offsets of the blocks of a frame, from offset [i] on. *)
Fixpoint block_offsets (fuel : nat) (data : list Z) (i : Z) : list Z :=
  match fuel with
  | O => []
  | S fuel' =>
      if i <? len data
      then i :: block_offsets fuel' data (i + get data i)
      else []
  end.

(** What the block at offset [i] with code [n] contributes: the next
    [n - 1] input bytes, cut at the end of the input, ... *)
Definition block_bytes (data : list Z) (i : Z) : list Z :=
  slice data (i + 1) (Z.min (i + get data i) (len data)).

(** ... followed by a restored zero when [n < 0xFF] and input remains
    beyond the block. *)
Definition block_zero (data : list Z) (i : Z) : list Z :=
  if (get data i <? 255) && (i + get data i <? len data) then [0] else [].

Definition block_contribution (data : list Z) (i : Z) : list Z :=
  block_bytes data i ++ block_zero data i.

Definition decode_blocks (data : list Z) : list Z :=
  flat_map (block_contribution data) (block_offsets (S (length data)) data 0).

(** *** The encoder *)

(** Modelled from the spec: the encoder ("the inverse stuffing algorithm")
    is not part of the sources.  This is Consistent Overhead Byte Stuffing
    as the glossary defines it: the data is cut at its zero bytes, each run
    of at most 253 non-zero bytes is sent behind a code one larger than its
    length, and a run that reaches 254 bytes is sent behind the code 0xFF,
    which stands for no zero.  [block] is the run collected so far.
    Encoders differ in one point, which [closing] selects: whether data
    that ends with a full run is closed by a last code 0x01 or not. *)
Fixpoint encode_from (closing : bool) (block : list Z) (data : list Z)
  : list Z :=
  match data with
  | [] => (len block + 1) :: block
  | b :: rest =>
      if b =? 0 then (len block + 1) :: block ++ encode_from closing [] rest
      else
        let block' := block ++ [b] in
        if len block' =? 254 then
          255 :: block' ++
            (if (len rest =? 0) && negb closing then []
             else encode_from closing [] rest)
        else encode_from closing block' rest
  end.

Definition encodeCOBS (closing : bool) (data : list Z) : list Z :=
  encode_from closing [] data.

(** The outcome of a run that starts with [output] already decoded. *)
Definition prepend (output : list Z) (r : outcome) : outcome :=
  match r with
  | Returned decoded => Returned (output ++ decoded)
  | COBSDecoderError message => COBSDecoderError message
  | OutOfFuel => OutOfFuel
  end.

End Cobs.


(** * src/hooks/useHttp.ts: the one-shot streaming read *)

Module HttpStream.

Definition LF : ascii := "010"%char.
Definition CR : ascii := "013"%char.

(** [buffer.indexOf(c)] for a one-character needle; -1 when absent. *)
Fixpoint indexOf (buffer : string) (c : ascii) : Z :=
  match buffer with
  | EmptyString => -1
  | String a rest =>
      if Ascii.eqb a c then 0
      else let k := indexOf rest c in if k <? 0 then -1 else k + 1
  end.

Fixpoint str_take (n : nat) (s : string) : string :=
  match n, s with
  | O, _ => EmptyString
  | S _, EmptyString => EmptyString
  | S n', String a rest => String a (str_take n' rest)
  end.

Fixpoint str_drop (n : nat) (s : string) : string :=
  match n, s with
  | O, _ => s
  | S _, EmptyString => EmptyString
  | S n', String _ rest => str_drop n' rest
  end.

(** [buffer.slice(0, index)] and [buffer.slice(index + 1)] for
    [0 <= index]. *)
Definition slice_to (buffer : string) (index : Z) : string :=
  str_take (Z.to_nat index) buffer.

Definition slice_from (buffer : string) (start : Z) : string :=
  str_drop (Z.to_nat start) buffer.

(** [line.replace(/\r$/, '')]: without the multiline flag, [$] is the end
    of the string, so at most the last character goes. *)
Fixpoint replace_trailing_CR (line : string) : string :=
  match line with
  | EmptyString => EmptyString
  | String a EmptyString =>
      if Ascii.eqb a CR then EmptyString else String a EmptyString
  | String a rest => String a (replace_trailing_CR rest)
  end.

(** What the stream reader closure holds: the [buffer] variable and, as a
    trace, the arguments of the calls made to the line handler. *)
Record reader_state : Type := {
  buffer : string;
  calls : list string
}.

(** [lineHandlerRef.current?.(line)]: a call when a handler is registered. *)
Definition call_handler (registered : bool) (line : string)
  (calls : list string) : list string :=
  if registered then calls ++ [line] else calls.

(** The inner [while ((index = buffer.indexOf('\n')) >= 0)] loop. *)
Fixpoint split_loop (fuel : nat) (registered : bool) (buffer : string)
  (calls : list string) : reader_state :=
  match fuel with
  | O => {| buffer := buffer; calls := calls |}
  | S fuel' =>
      let index := indexOf buffer LF in
      if index >=? 0 then
        let line := replace_trailing_CR (slice_to buffer index) in
        let buffer' := slice_from buffer (index + 1) in
        split_loop fuel' registered buffer' (call_handler registered line calls)
      else {| buffer := buffer; calls := calls |}
  end.

(** The result of [reader.read()]. *)
Record read_result : Type := {
  value : option string;
  done : bool
}.

(** A received chunk.  The text of a chunk is kept as the string that
    [textDecoder.decode(value, { stream: true })] gives for it, which for
    ASCII bytes is the bytes themselves. *)
Definition chunk (text : string) : read_result :=
  {| value := Some text; done := false |}.

Definition stream_end : read_result := {| value := None; done := true |}.

(** The body of the [while (true)] loop for one read result that is not
    [done]. *)
Definition on_read (registered : bool) (st : reader_state) (r : read_result)
  : reader_state :=
  match value r with
  | Some text =>
      let buffer' := String.append (buffer st) text in
      split_loop (S (String.length buffer')) registered buffer' (calls st)
  | None => st
  end.

(** The [while (true)] loop over the results the reader delivers; it leaves
    at [done], and otherwise waits for the next result. *)
Fixpoint read_loop (registered : bool) (results : list read_result)
  (st : reader_state) : reader_state :=
  match results with
  | [] => st
  | r :: later =>
      if done r then st
      else read_loop registered later (on_read registered st r)
  end.

Definition initial : reader_state := {| buffer := EmptyString; calls := [] |}.

(** The lines of a text read in one piece: [cur] is the line being
    collected; the result is the finished lines and the unfinished rest. *)
Fixpoint lines_of (cur : string) (text : string) : list string * string :=
  match text with
  | EmptyString => ([], cur)
  | String a rest =>
      if Ascii.eqb a LF then
        let (ls, r) := lines_of EmptyString rest in
        (replace_trailing_CR cur :: ls, r)
      else lines_of (String.append cur (String a EmptyString)) rest
  end.

(** The reader state after the text [received] has arrived in one piece. *)
Definition state_after (received : string) : reader_state :=
  {| buffer := snd (lines_of EmptyString received);
     calls := fst (lines_of EmptyString received) |}.

(** The text ["a,1\nb,2\r\nc,"]. *)
Definition sample_text : string :=
  String.append "a,1"
    (String LF (String.append "b,2" (String CR (String LF "c,")))).

(** All the text of a list of chunks. *)
Definition received_text (chunks : list string) : string :=
  fold_right String.append EmptyString chunks.

(** How often [c] occurs in [text]. *)
Fixpoint count_char (c : ascii) (text : string) : nat :=
  match text with
  | EmptyString => O
  | String a rest =>
      if Ascii.eqb a c then S (count_char c rest) else count_char c rest
  end.

(** The text that [lines], each closed by a line feed, and an unfinished
    [rest] make up. *)
Definition unsplit (lines : list string) (rest : string) : string :=
  fold_right (fun line text => String.append line (String LF text)) rest lines.

End HttpStream.

(** * src/hooks/useHttp.ts and the connection manager (useDataConnection) *)

Module Connection.

(** A thrown value: an [Error] with its message, or anything else
    ([err instanceof Error] decides which message is recorded). *)
Inductive thrown : Type :=
| ErrorObject (message : string)
| OtherValue.

(** How an awaited backend call ends. *)
Inductive outcome : Type :=
| Success
| Failure (err : thrown).

(** How an [async] function ends for its caller. *)
Inductive completion : Type :=
| Resolved
| Rejected (err : thrown).

Definition message_or (fallback : string) (err : thrown) : string :=
  match err with
  | ErrorObject message => message
  | OtherValue => fallback
  end.

(** ** useHttp *)

Record HttpState : Type := {
  http_isSupported : bool;
  http_isConnecting : bool;
  http_isConnected : bool;
  http_error : option string;
  http_address : string
}.

(** The hook: its state and the refs that [write] and [disconnect] read.
    [socketRef] holds the address of the open socket; the writer ref is
    never assigned in the source and is left out. *)
Record Http : Type := {
  http_state : HttpState;
  abortControllerRef : bool;
  socketRef : option string
}.

Definition set_http_state (f : HttpState -> HttpState) (h : Http) : Http :=
  {| http_state := f (http_state h);
     abortControllerRef := abortControllerRef h;
     socketRef := socketRef h |}.

Definition http_disconnect (h : Http) : Http :=
  {| http_state :=
       {| http_isSupported := http_isSupported (http_state h);
          http_isConnecting := http_isConnecting (http_state h);
          http_isConnected := false;
          http_error := http_error (http_state h);
          http_address := http_address (http_state h) |};
     abortControllerRef := false;
     socketRef := None |}.

Definition isWebSocket (address : string) : bool :=
  String.prefix "ws://" address || String.prefix "wss://" address.

(** [connect] up to the point where it awaits the socket or the fetch.
    [Some c]: the call is over already; [None]: it awaits. *)
Definition http_connect_begin (address : string) (h : Http)
  : Http * option completion :=
  if negb (http_isSupported (http_state h)) then
    (set_http_state (fun s =>
       {| http_isSupported := http_isSupported s;
          http_isConnecting := http_isConnecting s;
          http_isConnected := http_isConnected s;
          http_error := Some "Streaming fetch not supported in this browser."%string;
          http_address := http_address s |}) h,
     Some Resolved)
  else
    let h1 := http_disconnect h in
    ({| http_state :=
          {| http_isSupported := http_isSupported (http_state h1);
             http_isConnecting := true;
             http_isConnected := http_isConnected (http_state h1);
             http_error := None;
             http_address := address |};
        abortControllerRef := true;
        socketRef := if isWebSocket address then Some address else None |},
     None).

(** What can end the wait of [connect]. *)
Inductive http_event : Type :=
| SocketOpen
| SocketError
| TimerFired (reason : string)
| FetchResponse (hasBody : bool)
| FetchRejected (err : thrown).

(** The events each sub-mode listens to while it waits, and what they make
    of the wait; an event the sub-mode does not listen to leaves it
    waiting. *)
Definition http_await (address : string) (e : http_event) : option outcome :=
  if isWebSocket address then
    match e with
    | SocketOpen => Some Success
    | SocketError =>
        Some (Failure (ErrorObject "Failed to connect to WebSocket"))
    | TimerFired reason => Some (Failure (ErrorObject reason))
    | _ => None
    end
  else
    match e with
    | FetchResponse true => Some Success
    | FetchResponse false => Some (Failure (ErrorObject "Response has no body"))
    | FetchRejected err => Some (Failure err)
    | _ => None
    end.

(** The timers [connect] arms for its wait, as (delay in ms, reason):
    [setTimeout(() => reject(new Error('Connection timeout')), 5000)] in
    the WebSocket branch, none around [fetch]. *)
Definition http_timers (address : string) : list (Z * string) :=
  if isWebSocket address then [(5000, "Connection timeout"%string)] else [].

(** The first armed timer that is due after [elapsed] ms. *)
Definition due_timer (timers : list (Z * string)) (elapsed : Z)
  : option http_event :=
  match find (fun t => fst t <=? elapsed) timers with
  | Some t => Some (TimerFired (snd t))
  | None => None
  end.

(** The wait of [connect(address)] when the peer gives no response at all
    (no open, no error, no response, no abort) for [elapsed] ms: [None] is
    a call that is still pending. *)
Definition http_silent_wait (address : string) (elapsed : Z) : option outcome :=
  match due_timer (http_timers address) elapsed with
  | Some e => http_await address e
  | None => None
  end.

(** [connect] from the end of its wait on. *)
Definition http_connect_settle (o : outcome) (h : Http) : Http * completion :=
  match o with
  | Success =>
      (set_http_state (fun s =>
         {| http_isSupported := http_isSupported s;
            http_isConnecting := false;
            http_isConnected := true;
            http_error := http_error s;
            http_address := http_address s |}) h,
       Resolved)
  | Failure err =>
      (set_http_state (fun s =>
         {| http_isSupported := http_isSupported s;
            http_isConnecting := false;
            http_isConnected := http_isConnected s;
            http_error := Some (message_or "Failed to connect." err);
            http_address := http_address s |}) h,
       Rejected err)
  end.

(** What a [write] does. *)
Inductive write_effect : Type :=
| SerialWrite (data : string)
| SocketSend (data : string)
| WriteThrows (message : string).

Definition http_write (h : Http) (data : string) : write_effect :=
  if negb (http_isConnected (http_state h)) then WriteThrows "Not connected"
  else
    match socketRef h with
    | Some _ => SocketSend data
    | None => WriteThrows "write on HTTP connection not supported"
    end.

(** ** The other two backends *)

(** Modelled from the spec: useSerial is not part of the sources.  A
    backend exposes its state (disconnected, connecting, connected), a
    [connect] that passes through connecting and ends connected or failed,
    and a [disconnect] that ends disconnected. *)
Record SerialState : Type := {
  serial_isSupported : bool;
  serial_isConnecting : bool;
  serial_isConnected : bool;
  serial_error : option string
}.

Definition serial_disconnect (s : SerialState) : SerialState :=
  {| serial_isSupported := serial_isSupported s;
     serial_isConnecting := serial_isConnecting s;
     serial_isConnected := false;
     serial_error := serial_error s |}.

Definition serial_connect_begin (s : SerialState) : SerialState :=
  {| serial_isSupported := serial_isSupported s;
     serial_isConnecting := true;
     serial_isConnected := serial_isConnected s;
     serial_error := None |}.

Definition serial_connect_settle (o : outcome) (s : SerialState) : SerialState :=
  match o with
  | Success =>
      {| serial_isSupported := serial_isSupported s;
         serial_isConnecting := false;
         serial_isConnected := true;
         serial_error := serial_error s |}
  | Failure err =>
      {| serial_isSupported := serial_isSupported s;
         serial_isConnecting := false;
         serial_isConnected := false;
         serial_error := Some (message_or "Failed to connect." err) |}
  end.

(** Modelled from the spec: useSignalGenerator is not part of the sources.
    The generator runs or not; [start] makes it run, [stop] stops it. *)
Definition generator_start (o : outcome) (isRunning : bool) : bool :=
  match o with
  | Success => true
  | Failure _ => isRunning
  end.

(** ** useDataConnection *)

Inductive ConnectionType : Type := serial | http | generator.

Definition ConnectionType_eqb (a b : ConnectionType) : bool :=
  match a, b with
  | serial, serial | http, http | generator, generator => true
  | _, _ => false
  end.

(** The hook's own state and the three hooks it owns. *)
Record Manager : Type := {
  connectionType : option ConnectionType;
  isConnecting : bool;
  error : option string;
  serialHook : SerialState;
  generator_isRunning : bool;
  httpHook : Http
}.

(** The [state] record the hook returns. *)
Record ConnectionState : Type := {
  state_type : option ConnectionType;
  state_isConnecting : bool;
  state_isConnected : bool;
  state_isSupported : bool;
  state_error : option string
}.

Definition or_else (a b : option string) : option string :=
  match a with
  | Some EmptyString | None => b
  | Some _ => a
  end.

Definition state (m : Manager) : ConnectionState :=
  {| state_type := connectionType m;
     state_isConnecting :=
       isConnecting m || serial_isConnecting (serialHook m)
       || http_isConnecting (http_state (httpHook m));
     state_isConnected :=
       serial_isConnected (serialHook m) || generator_isRunning m
       || http_isConnected (http_state (httpHook m));
     state_isSupported :=
       serial_isSupported (serialHook m)
       && http_isSupported (http_state (httpHook m));
     state_error :=
       or_else (or_else (error m) (serial_error (serialHook m)))
               (http_error (http_state (httpHook m))) |}.

(** The teardown steps at the head of the connect functions. *)
Definition stop_generator_if_running (m : Manager) : Manager :=
  if generator_isRunning m then
    {| connectionType := connectionType m; isConnecting := isConnecting m;
       error := error m; serialHook := serialHook m;
       generator_isRunning := false; httpHook := httpHook m |}
  else m.

Definition disconnect_http_if_connected (m : Manager) : Manager :=
  if http_isConnected (http_state (httpHook m)) then
    {| connectionType := connectionType m; isConnecting := isConnecting m;
       error := error m; serialHook := serialHook m;
       generator_isRunning := generator_isRunning m;
       httpHook := http_disconnect (httpHook m) |}
  else m.

Definition disconnect_serial_if_connected (m : Manager) : Manager :=
  if serial_isConnected (serialHook m) then
    {| connectionType := connectionType m; isConnecting := isConnecting m;
       error := error m; serialHook := serial_disconnect (serialHook m);
       generator_isRunning := generator_isRunning m;
       httpHook := httpHook m |}
  else m.

(** The three [useState] setters and the hooks, as one update. *)
Definition with_own (t : option ConnectionType) (c : bool) (e : option string)
  (m : Manager) : Manager :=
  {| connectionType := t; isConnecting := c; error := e;
     serialHook := serialHook m;
     generator_isRunning := generator_isRunning m;
     httpHook := httpHook m |}.

Definition with_serial (s : SerialState) (m : Manager) : Manager :=
  {| connectionType := connectionType m; isConnecting := isConnecting m;
     error := error m; serialHook := s;
     generator_isRunning := generator_isRunning m;
     httpHook := httpHook m |}.

Definition with_http (h : Http) (m : Manager) : Manager :=
  {| connectionType := connectionType m; isConnecting := isConnecting m;
     error := error m; serialHook := serialHook m;
     generator_isRunning := generator_isRunning m;
     httpHook := h |}.

Definition with_generator (r : bool) (m : Manager) : Manager :=
  {| connectionType := connectionType m; isConnecting := isConnecting m;
     error := error m; serialHook := serialHook m;
     generator_isRunning := r;
     httpHook := httpHook m |}.

(** [connectSerial] up to [await serial.connect(config.baudRate)]. *)
Definition connectSerial_begin (m : Manager) : Manager :=
  let m1 := stop_generator_if_running m in
  let m2 := disconnect_http_if_connected m1 in
  let m3 := with_own (connectionType m2) true None m2 in
  with_serial (serial_connect_begin (serialHook m3)) m3.

(** [connectSerial] from the end of that wait on. *)
Definition connectSerial_settle (o : outcome) (m : Manager)
  : Manager * completion :=
  let m1 := with_serial (serial_connect_settle o (serialHook m)) m in
  match o with
  | Success => (with_own (Some serial) false (error m1) m1, Resolved)
  | Failure err =>
      (with_own None false
         (Some (message_or "Failed to connect to serial port" err)) m1,
       Rejected err)
  end.

Definition connectSerial (o : outcome) (m : Manager) : Manager * completion :=
  connectSerial_settle o (connectSerial_begin m).

(** [connectHttp] from the end of [await http.connect(address)] on, given
    how that call ended. *)
Definition connectHttp_finish (c : completion) (m : Manager)
  : Manager * completion :=
  match c with
  | Resolved => (with_own (Some http) false (error m) m, Resolved)
  | Rejected err =>
      (with_own None false
         (Some (message_or "Failed to connect to HTTP stream" err)) m,
       Rejected err)
  end.

(** [connectHttp] up to the wait inside [http.connect]; when [http.connect]
    returns at once the call runs to its end. *)
Definition connectHttp_begin (address : string) (m : Manager)
  : Manager * option completion :=
  let m1 := disconnect_serial_if_connected m in
  let m2 := stop_generator_if_running m1 in
  let m3 := with_own (connectionType m2) true None m2 in
  let (h, early) := http_connect_begin address (httpHook m3) in
  match early with
  | Some c =>
      let (m4, c') := connectHttp_finish c (with_http h m3) in (m4, Some c')
  | None => (with_http h m3, None)
  end.

Definition connectHttp_settle (o : outcome) (m : Manager)
  : Manager * completion :=
  let (h, c) := http_connect_settle o (httpHook m) in
  connectHttp_finish c (with_http h m).

Definition connectHttp (address : string) (o : outcome) (m : Manager)
  : Manager * completion :=
  match connectHttp_begin address m with
  | (m1, Some c) => (m1, c)
  | (m1, None) => connectHttp_settle o m1
  end.

(** [connectGenerator]; [o] is how [generator.setConfig(config);
    generator.start()] ends.  Nothing is awaited but the teardown. *)
Definition connectGenerator (o : outcome) (m : Manager)
  : Manager * completion :=
  let m1 := disconnect_serial_if_connected m in
  let m2 := disconnect_http_if_connected m1 in
  let m3 := with_own (Some generator) (isConnecting m2) None m2 in
  let m4 := with_generator (generator_start o (generator_isRunning m3)) m3 in
  match o with
  | Success => (m4, Resolved)
  | Failure err =>
      (with_own None (isConnecting m4)
         (Some (message_or "Failed to start signal generator" err)) m4,
       Resolved)
  end.

Definition disconnect (m : Manager) : Manager * completion :=
  let m1 := with_own (connectionType m) (isConnecting m) None m in
  let m2 := disconnect_serial_if_connected m1 in
  let m3 := stop_generator_if_running m2 in
  let m4 := disconnect_http_if_connected m3 in
  (with_own None (isConnecting m4) (error m4) m4, Resolved).

Definition is_type (k : ConnectionType) (m : Manager) : bool :=
  match connectionType m with
  | Some k' => ConnectionType_eqb k' k
  | None => false
  end.

(** [write]; what [serial.write] does with the data is the serial hook's
    business. *)
Definition write (m : Manager) (data : string) : write_effect :=
  if is_type serial m && serial_isConnected (serialHook m)
  then SerialWrite data
  else if is_type http m && http_isConnected (http_state (httpHook m))
  then http_write (httpHook m) data
  else WriteThrows "Not connected".

(** ** Connect calls in general *)

Inductive request : Type :=
| ConnectSerial
| ConnectHttp (address : string)
| ConnectGenerator.

Definition kind (r : request) : ConnectionType :=
  match r with
  | ConnectSerial => serial
  | ConnectHttp _ => http
  | ConnectGenerator => generator
  end.

(** A connect call up to its wait for the backend ([o] only matters to the
    generator, which does not wait). *)
Definition connect_begin (r : request) (o : outcome) (m : Manager)
  : Manager * option completion :=
  match r with
  | ConnectSerial => (connectSerial_begin m, None)
  | ConnectHttp address => connectHttp_begin address m
  | ConnectGenerator =>
      let (m1, c) := connectGenerator o m in (m1, Some c)
  end.

(** A connect call from start to end, the backend ending with [o]. *)
Definition connect (r : request) (o : outcome) (m : Manager)
  : Manager * completion :=
  match r with
  | ConnectSerial => connectSerial o m
  | ConnectHttp address => connectHttp address o m
  | ConnectGenerator => connectGenerator o m
  end.

(** A backend is connected or connecting (the generator: running). *)
Definition backend_active (k : ConnectionType) (m : Manager) : bool :=
  match k with
  | serial =>
      serial_isConnecting (serialHook m) || serial_isConnected (serialHook m)
  | http =>
      http_isConnecting (http_state (httpHook m))
      || http_isConnected (http_state (httpHook m))
  | generator => generator_isRunning m
  end.

(** A backend is connected (the generator: running). *)
Definition backend_connected (k : ConnectionType) (m : Manager) : bool :=
  match k with
  | serial => serial_isConnected (serialHook m)
  | http => http_isConnected (http_state (httpHook m))
  | generator => generator_isRunning m
  end.

(** A connect of the backend is waiting (the generator never waits). *)
Definition backend_connecting (k : ConnectionType) (m : Manager) : bool :=
  match k with
  | serial => serial_isConnecting (serialHook m)
  | http => http_isConnecting (http_state (httpHook m))
  | generator => false
  end.

Definition active_count (m : Manager) : nat :=
  List.length (filter (fun k => backend_active k m) [serial; http; generator]).

(** No connect call is waiting for its backend. *)
Definition nothing_in_flight (m : Manager) : Prop :=
  serial_isConnecting (serialHook m) = false /\
  http_isConnecting (http_state (httpHook m)) = false.

(** The message a connect function records for a thrown value that is not
    an [Error]. *)
Definition fallback_message (r : request) : string :=
  match r with
  | ConnectSerial => "Failed to connect to serial port"
  | ConnectHttp _ => "Failed to connect to HTTP stream"
  | ConnectGenerator => "Failed to start signal generator"
  end.

(** The environment can make the attempt [r] asks for. *)
Definition attempt_possible (r : request) (m : Manager) : Prop :=
  match r with
  | ConnectHttp _ => http_isSupported (http_state (httpHook m)) = true
  | _ => True
  end.

(** The manager right after the page loads. *)
Definition idle : Manager :=
  {| connectionType := None; isConnecting := false; error := None;
     serialHook :=
       {| serial_isSupported := true; serial_isConnecting := false;
          serial_isConnected := false; serial_error := None |};
     generator_isRunning := false;
     httpHook :=
       {| http_state :=
            {| http_isSupported := true; http_isConnecting := false;
               http_isConnected := false; http_error := None;
               http_address := EmptyString |};
          abortControllerRef := false;
          socketRef := None |} |}.

End Connection.

(** * src/utils/chartExport.ts *)

Module ChartExport.

(** The JS numbers the export reads and the library calls that print
    them.  The export only ever asks a number whether it is finite and has
    it printed. *)
Class Numbers : Type := {
  Num : Type;
  (** [Number.isFinite(x)] *)
  isFinite : Num -> bool;
  (** [x ? .. : ..]: neither 0 nor NaN *)
  truthy : Num -> bool;
  (** [x - y] *)
  sub : Num -> Num -> Num;
  (** [x.toString()] *)
  toString : Num -> string;
  (** [new Date(x).toISOString()]; [None]: the RangeError it throws for a
      time that [Date] does not represent (beyond 8.64e15 ms either way) *)
  toISOString : Num -> option string;
  (** [(x / 1000).toFixed(3)] *)
  secondsToFixed3 : Num -> string;
  (** the four bytes [DataView.setFloat32(offset, x, true)] writes *)
  float32LE : Num -> list Z;
  zero : Num
}.

Inductive ChartExportScope : Type := visible | all.
Inductive TimeFormat : Type := iso | relative | timestamp.
Inductive ExportFormat : Type := csv | wav.

Record ChartExportOptions : Type := {
  scope : ChartExportScope;
  includeTimestamps : option bool;
  timeFormat : option TimeFormat;
  format : ExportFormat
}.

Record Series : Type := {
  id : Z;
  name : string
}.

Section WithNumbers.
Context {N : Numbers}.

(** Modelled from the spec: the RingStore class is not part of the
    sources; the export reads these members of it.  The store owns one
    time array and one sample array per series, all of capacity C, and a
    write cursor W that counts the samples ever appended. *)
Record RingStore : Type := {
  getSeries : list Series;
  getCapacity : Z;
  writeIndex : Z;
  times : list Num;
  buffers : list (list Num);
  firstTimestamp : option Num
}.

(** Modelled from the spec: the ViewPortData type is not part of the
    sources; a snapshot exposes its series, ordered times, per-series
    samples and the epoch. *)
Record ViewPortData : Type := {
  vp_series : list Series;
  getTimes : list Num;
  getSeriesData : Z -> list Num;
  vp_firstTimestamp : option Num
}.

(** [array[index]]: [None] is [undefined]. *)
Definition at_index {A : Type} (array : list A) (index : Z) : option A :=
  if index <? 0 then None else nth_error array (Z.to_nat index).

(** [Number.isFinite(value) ? value.toString() : ''] *)
Definition value_field (value : option Num) : string :=
  match value with
  | Some v => if isFinite v then toString v else EmptyString
  | None => EmptyString
  end.

(** What a call ends with: a value, a thrown [Error] with its message,
    the TypeError of reading an index of [undefined], or the RangeError of
    printing a time that [Date] does not represent. *)
Inductive result (A : Type) : Type :=
| Returns (value : A)
| Throws (message : string)
| TypeError
| RangeError.
Arguments Returns {A} value.
Arguments Throws {A} message.
Arguments TypeError {A}.
Arguments RangeError {A}.

(** The rest of a computation after a step that may throw. *)
Definition and_then {A B : Type} (r : result A) (k : A -> result B)
  : result B :=
  match r with
  | Returns a => k a
  | Throws message => Throws message
  | TypeError => TypeError
  | RangeError => RangeError
  end.

Definition formatChartTimestamp (t : Num) (fmt : TimeFormat)
  (baseTime : option Num) : result string :=
  match fmt with
  | iso =>
      match toISOString t with
      | Some text => Returns text
      | None => RangeError
      end
  | relative =>
      let relativeMs :=
        match baseTime with
        | Some b => if truthy b then sub t b else t
        | None => t
        end in
      Returns (secondsToFixed3 relativeMs)
  | timestamp => Returns (toString t)
  end.

Definition is_true (flag : option bool) : bool :=
  match flag with
  | Some true => true
  | _ => false
  end.

(** [options.timeFormat || 'iso'] *)
Definition timeFormat_or_iso (options : ChartExportOptions) : TimeFormat :=
  match timeFormat options with
  | Some f => f
  | None => iso
  end.

(** [options.timeFormat === 'relative' ? (first ?? undefined) : undefined] *)
Definition base_time (options : ChartExportOptions) (first : option Num)
  : option Num :=
  match timeFormat options with
  | Some relative => first
  | _ => None
  end.

(** The timestamp cell of a row. *)
Definition timestamp_field (options : ChartExportOptions)
  (baseTime : option Num) (t : option Num) : result string :=
  match t with
  | Some v =>
      if isFinite v
      then formatChartTimestamp v (timeFormat_or_iso options) baseTime
      else Returns EmptyString
  | None => Returns EmptyString
  end.

(** The row after the timestamp step: the cell is pushed on [row] when
    timestamps are asked for. *)
Definition push_timestamp (options : ChartExportOptions)
  (baseTime : option Num) (t : option Num) (row : list string)
  : result (list string) :=
  if is_true (includeTimestamps options)
  then and_then (timestamp_field options baseTime t)
         (fun cell => Returns (row ++ [cell]))
  else Returns row.

(** [headers]: ['Timestamp'] when asked for, then the series names. *)
Definition headers (options : ChartExportOptions) (series : list Series)
  : list string :=
  (if is_true (includeTimestamps options) then ["Timestamp"%string] else [])
  ++ map name series.

Definition newline : string := String HttpStream.LF EmptyString.

(** *** exportVisibleChartDataAsCsv *)

(** [for (let seriesIndex = 0; seriesIndex < series.length; seriesIndex++)]
    of the visible export, [count] turns from [seriesIndex] on. *)
Fixpoint visible_series_loop (count : nat) (seriesIndex : Z)
  (snapshot : ViewPortData) (i : Z) (row : list string) : list string :=
  match count with
  | O => row
  | S count' =>
      let seriesData := getSeriesData snapshot seriesIndex in
      let value := if i <? len seriesData then at_index seriesData i else None in
      visible_series_loop count' (seriesIndex + 1) snapshot i
        (row ++ [value_field value])
  end.

(** [for (let i = 0; i < times.length; i++)], [count] turns from [i] on. *)
Fixpoint visible_rows_loop (count : nat) (i : Z) (snapshot : ViewPortData)
  (options : ChartExportOptions) (baseTime : option Num)
  (csvLines : list string) : result (list string) :=
  match count with
  | O => Returns csvLines
  | S count' =>
      let row := [] in
      and_then
        (push_timestamp options baseTime (at_index (getTimes snapshot) i) row)
        (fun row =>
           let row :=
             visible_series_loop (length (vp_series snapshot)) 0 snapshot i
               row in
           visible_rows_loop count' (i + 1) snapshot options baseTime
             (csvLines ++ [String.concat "," row]))
  end.

Definition exportVisibleChartDataAsCsv (snapshot : ViewPortData)
  (options : ChartExportOptions) : result string :=
  let series := vp_series snapshot in
  let times := getTimes snapshot in
  if (len series =? 0) || (len times =? 0)
  then Returns "No data available"%string
  else
    let csvLines := [String.concat "," (headers options series)] in
    let baseTime := base_time options (vp_firstTimestamp snapshot) in
    and_then
      (visible_rows_loop (length times) 0 snapshot options baseTime csvLines)
      (fun csvLines => Returns (String.concat newline csvLines)).

(** *** exportAllChartDataAsCsv *)

(** [for (let seriesIndex = 0; seriesIndex < series.length; seriesIndex++)]
    reading [store.buffers[seriesIndex][ringIndex]]. *)
Fixpoint series_loop (count : nat) (seriesIndex : Z) (store : RingStore)
  (ringIndex : Z) (row : list string) : option (list string) :=
  match count with
  | O => Some row
  | S count' =>
      match at_index (buffers store) seriesIndex with
      | None => None
      | Some buffer =>
          series_loop count' (seriesIndex + 1) store ringIndex
            (row ++ [value_field (at_index buffer ringIndex)])
      end
  end.

(** [for (let i = startIndex; i <= endIndex; i++)], [count] turns from [i]
    on. *)
Fixpoint rows_loop (count : nat) (i : Z) (store : RingStore)
  (options : ChartExportOptions) (baseTime : option Num)
  (csvLines : list string) : result (list string) :=
  match count with
  | O => Returns csvLines
  | S count' =>
      let ringIndex := Z.rem i (getCapacity store) in
      let row := [] in
      and_then
        (push_timestamp options baseTime (at_index (times store) ringIndex) row)
        (fun row =>
           match series_loop (length (getSeries store)) 0 store ringIndex
                   row with
           | None => TypeError
           | Some row' =>
               rows_loop count' (i + 1) store options baseTime
                 (csvLines ++ [String.concat "," row'])
           end)
  end.

Definition exportAllChartDataAsCsv (store : RingStore)
  (options : ChartExportOptions) : result string :=
  let series := getSeries store in
  if len series =? 0 then Returns "No data available"%string
  else
    let csvLines := [String.concat "," (headers options series)] in
    let capacity := getCapacity store in
    let writeIndex := writeIndex store in
    let totalSamples := Z.min writeIndex capacity in
    if totalSamples =? 0 then Returns (String.concat newline csvLines)
    else
      let startIndex :=
        if writeIndex >? capacity then writeIndex - capacity else 0 in
      let endIndex := writeIndex - 1 in
      let baseTime := base_time options (firstTimestamp store) in
      and_then
        (rows_loop (Z.to_nat (endIndex - startIndex + 1)) startIndex
           store options baseTime csvLines)
        (fun csvLines => Returns (String.concat newline csvLines)).

(** *** exportAllChartDataAsWav *)

(** [str.charCodeAt(i)] as [setUint8] stores it. *)
Definition char_codes (str : string) : list Z :=
  map (fun a => Z.of_N (N_of_ascii a)) (list_ascii_of_string str).

(** [setUint16(offset, val, true)] and [setUint32(offset, val, true)]: the
    low [width] bytes of [val], least significant first. *)
Definition little_endian (width : nat) (val : Z) : list Z :=
  map (fun k => (val / 2 ^ (8 * Z.of_nat k)) mod 256) (seq 0 width).

(** [for (let ch = 0; ch < numChannels; ch++)], filling [interleaved]. *)
Fixpoint channel_loop (count : nat) (ch : Z) (store : RingStore)
  (ringIndex : Z) (interleaved : list Num) : option (list Num) :=
  match count with
  | O => Some interleaved
  | S count' =>
      match at_index (buffers store) ch with
      | None => None
      | Some buffer =>
          let sample :=
            match at_index buffer ringIndex with
            | Some v => if isFinite v then v else zero
            | None => zero
            end in
          channel_loop count' (ch + 1) store ringIndex (interleaved ++ [sample])
      end
  end.

Fixpoint frames_loop (count : nat) (i : Z) (store : RingStore)
  (interleaved : list Num) : option (list Num) :=
  match count with
  | O => Some interleaved
  | S count' =>
      let ringIndex := Z.rem i (getCapacity store) in
      match channel_loop (length (getSeries store)) 0 store ringIndex
              interleaved with
      | None => None
      | Some interleaved' => frames_loop count' (i + 1) store interleaved'
      end
  end.

Definition exportAllChartDataAsWav (store : RingStore) : result (list Z) :=
  let series := getSeries store in
  if len series =? 0 then Throws "No data available"
  else
    let capacity := getCapacity store in
    let writeIndex := writeIndex store in
    let totalSamples := Z.min writeIndex capacity in
    if totalSamples =? 0 then Throws "No data available"
    else
      let numChannels := len series in
      let sampleRate := 8000 in
      let startIndex :=
        if writeIndex >? capacity then writeIndex - capacity else 0 in
      let endIndex := writeIndex - 1 in
      let numFrames := endIndex - startIndex + 1 in
      match frames_loop (Z.to_nat numFrames) startIndex store [] with
      | None => TypeError
      | Some interleaved =>
          let bytesPerSample := 4 in
          let blockAlign := numChannels * bytesPerSample in
          let byteRate := sampleRate * blockAlign in
          let dataSize := len interleaved * bytesPerSample in
          Returns
            (char_codes "RIFF" ++ little_endian 4 (36 + dataSize)
             ++ char_codes "WAVE"
             ++ char_codes "fmt " ++ little_endian 4 16
             ++ little_endian 2 3 ++ little_endian 2 numChannels
             ++ little_endian 4 sampleRate ++ little_endian 4 byteRate
             ++ little_endian 2 blockAlign
             ++ little_endian 2 (bytesPerSample * 8)
             ++ char_codes "data" ++ little_endian 4 dataSize
             ++ flat_map float32LE interleaved)
      end.

(** *** exportChartData *)

Inductive content : Type :=
| CsvContent (text : string)
| WavContent (bytes : list Z).

(** What a call of [exportChartData] does: one [downloadFile] call, or a
    throw. *)
Inductive export_effect : Type :=
| Downloads (c : content) (filename mime : string)
| ExportThrows (message : string)
| ExportTypeError
| ExportRangeError.

(** [timestamp] is the label made of [new Date()]. *)
Definition exportChartData (timestamp : string) (snapshot : ViewPortData)
  (store : RingStore) (options : ChartExportOptions) : export_effect :=
  let scopeLabel :=
    match scope options with
    | visible => "visible"%string
    | all => "all"%string
    end in
  match format options with
  | csv =>
      let filename :=
        String.append "chart-data-"
          (String.append scopeLabel
             (String.append "-" (String.append timestamp ".csv"))) in
      match scope options with
      | visible =>
          match exportVisibleChartDataAsCsv snapshot options with
          | Returns csvContent =>
              Downloads (CsvContent csvContent) filename "text/csv"
          | Throws message => ExportThrows message
          | TypeError => ExportTypeError
          | RangeError => ExportRangeError
          end
      | all =>
          match exportAllChartDataAsCsv store options with
          | Returns csvContent =>
              Downloads (CsvContent csvContent) filename "text/csv"
          | Throws message => ExportThrows message
          | TypeError => ExportTypeError
          | RangeError => ExportRangeError
          end
      end
  | wav =>
      let filename :=
        String.append "chart-data-"
          (String.append scopeLabel
             (String.append "-" (String.append timestamp "_LOUD.wav"))) in
      match scope options with
      | visible =>
          ExportThrows "`visible` scope is not supported for WAV export"
      | all =>
          match exportAllChartDataAsWav store with
          | Returns wavContent =>
              Downloads (WavContent wavContent) filename "audio/wav"
          | Throws message => ExportThrows message
          | TypeError => ExportTypeError
          | RangeError => ExportRangeError
          end
      end
  end.

(** *** The full-range CSV in the words of the specification *)

(** The valid logical indices, oldest first: min(W, C) of them, from
    max(0, W - C) to W - 1. *)
Definition valid_indices (store : RingStore) : list Z :=
  map (fun k => Z.max 0 (writeIndex store - getCapacity store) + Z.of_nat k)
      (seq 0 (Z.to_nat (Z.min (writeIndex store) (getCapacity store)))).

(** The header row: "Timestamp" when timestamps are included, then one
    column per series in insertion order. *)
Definition header_row (store : RingStore) (options : ChartExportOptions)
  : string :=
  String.concat ","
    ((if is_true (includeTimestamps options) then ["Timestamp"%string] else [])
     ++ map name (getSeries store)).

(** A time that [Date] represents, where it is a finite number at all. *)
Definition in_Date_range (t : option Num) : Prop :=
  match t with
  | Some v => isFinite v = true -> toISOString v <> None
  | None => True
  end.

(** The export is going to print times in the ISO format. *)
Definition prints_ISO (options : ChartExportOptions) : Prop :=
  is_true (includeTimestamps options) = true /\
  timeFormat_or_iso options = iso.


(** The text of a timestamp cell: empty for a time that is not finite. *)
Definition timestamp_text (options : ChartExportOptions)
  (baseTime : option Num) (t : option Num) : string :=
  match timestamp_field options baseTime t with
  | Returns text => text
  | _ => EmptyString
  end.


(** *** The visible CSV and the WAV samples, cell by cell *)

Definition row_indices (count : nat) : list Z := map Z.of_nat (seq 0 count).

(** The row of index [i] of a snapshot: the time at [i], then the sample
    at [i] of every series, in series order. *)
Definition visible_row (snapshot : ViewPortData) (options : ChartExportOptions)
  (i : Z) : string :=
  String.concat ","
    ((if is_true (includeTimestamps options)
      then [timestamp_text options
              (base_time options (vp_firstTimestamp snapshot))
              (at_index (getTimes snapshot) i)]
      else [])
     ++ map (fun s => value_field
                        (at_index (getSeriesData snapshot (Z.of_nat s)) i))
            (seq 0 (length (vp_series snapshot)))).

(** Where the export prints ISO times, every time of the snapshot is one
    that [Date] represents. *)
Definition snapshot_in_Date_range (snapshot : ViewPortData)
  (options : ChartExportOptions) : Prop :=
  prints_ISO options ->
  Forall (fun t => in_Date_range (Some t)) (getTimes snapshot).

(** The rows of an export, one after the other until one throws: row [i]
    is its timestamp step followed by the cells [cells i]. *)
Fixpoint rows_in_turn (timestamp_step : Z -> result (list string))
  (cells : Z -> list string) (indices : list Z) : result (list string) :=
  match indices with
  | [] => Returns []
  | i :: later =>
      and_then (timestamp_step i) (fun row =>
      and_then (rows_in_turn timestamp_step cells later) (fun rows =>
      Returns (String.concat "," (row ++ cells i) :: rows)))
  end.

(** The timestamp step and the sample cells of the store's row [i]. *)
Definition store_timestamp_step (store : RingStore)
  (options : ChartExportOptions) (i : Z) : result (list string) :=
  push_timestamp options (base_time options (firstTimestamp store))
    (at_index (times store) (i mod getCapacity store)) [].

Definition store_cells (store : RingStore) (i : Z) : list string :=
  map (fun buffer => value_field (at_index buffer (i mod getCapacity store)))
      (buffers store).

(** The timestamp step and the sample cells of the snapshot's row [i]. *)
Definition snapshot_timestamp_step (snapshot : ViewPortData)
  (options : ChartExportOptions) (i : Z) : result (list string) :=
  push_timestamp options (base_time options (vp_firstTimestamp snapshot))
    (at_index (getTimes snapshot) i) [].

Definition snapshot_cells (snapshot : ViewPortData) (i : Z) : list string :=
  map (fun s => value_field (at_index (getSeriesData snapshot (Z.of_nat s)) i))
      (seq 0 (length (vp_series snapshot))).

(** [Number.isFinite(value) ? value : 0] *)
Definition sample_or_zero (value : option Num) : Num :=
  match value with
  | Some v => if isFinite v then v else zero
  | None => zero
  end.

(** The frame of logical index [i]: one sample per buffer, in order. *)
Definition wav_frame (store : RingStore) (i : Z) : list Num :=
  map (fun buffer => sample_or_zero (at_index buffer (i mod getCapacity store)))
      (buffers store).

(** The frames of the valid range, oldest first. *)
Definition wav_samples (store : RingStore) : list Num :=
  flat_map (wav_frame store) (valid_indices store).

(** The cell of series [s] at row [k] of the store's valid range. *)
Definition store_cell (store : RingStore) (s k : nat) : option Num :=
  match nth_error (buffers store) s with
  | Some buffer =>
      at_index buffer
        ((Z.max 0 (writeIndex store - getCapacity store) + Z.of_nat k)
         mod getCapacity store)
  | None => None
  end.

(** A snapshot that shows the whole valid range of a store: the same
    series and epoch, and cell for cell the store's times and samples. *)
Definition shows_all (snapshot : ViewPortData) (store : RingStore) : Prop :=
  vp_series snapshot = getSeries store /\
  vp_firstTimestamp snapshot = firstTimestamp store /\
  length (getTimes snapshot)
  = Z.to_nat (Z.min (writeIndex store) (getCapacity store)) /\
  (forall k, (k < length (getTimes snapshot))%nat ->
     at_index (getTimes snapshot) (Z.of_nat k)
     = at_index (times store)
         ((Z.max 0 (writeIndex store - getCapacity store) + Z.of_nat k)
          mod getCapacity store)) /\
  (forall s k, (s < length (getSeries store))%nat ->
     (k < length (getTimes snapshot))%nat ->
     at_index (getSeriesData snapshot (Z.of_nat s)) (Z.of_nat k)
     = store_cell store s k).

End WithNumbers.

Arguments Returns {A} value.
Arguments Throws {A} message.
Arguments TypeError {A}.
Arguments RangeError {A}.

(** ** A small instance to run the export on *)

(** Integers and NaN ([None]); times within 8.64e15 ms print as their
    number of milliseconds and samples are stored in one byte. *)
Definition print_Z (z : Z) : string :=
  DecimalString.NilZero.string_of_int (Z.to_int z).

#[export] Instance IntNumbers : Numbers := {|
  Num := option Z;
  isFinite := fun x => match x with Some _ => true | None => false end;
  truthy := fun x => match x with Some z => negb (z =? 0) | None => false end;
  sub := fun x y =>
    match x, y with Some a, Some b => Some (a - b) | _, _ => None end;
  toString := fun x => match x with Some z => print_Z z | None => "NaN"%string end;
  toISOString := fun x =>
    match x with
    | Some z =>
        if Z.abs z <=? 8640000000000000
        then Some (String.append "T" (print_Z z)) else None
    | None => None
    end;
  secondsToFixed3 := fun x =>
    match x with Some z => print_Z (z / 1000) | None => "NaN"%string end;
  float32LE := fun x =>
    match x with Some z => [z mod 256; 0; 0; 0] | None => [0; 0; 192; 127] end;
  zero := Some 0
|}.

Definition num (z : Z) : @Num IntNumbers := Some z.
Definition NaN : @Num IntNumbers := None.

(** A store of capacity 2 after three appends to two series; the second
    series has no sample at the latest time. *)
Definition sample_store : @RingStore IntNumbers :=
  {| getSeries := [ {| id := 0; name := "a" |}; {| id := 1; name := "b" |} ];
     getCapacity := 2;
     writeIndex := 3;
     times := [num 30; num 20];
     buffers := [[num 3; num 2]; [NaN; num 5]];
     firstTimestamp := Some (num 10) |}.

(** A store whose one time is finite and beyond what [Date] represents. *)
Definition far_store : @RingStore IntNumbers :=
  {| getSeries := [ {| id := 0; name := "a" |} ];
     getCapacity := 2;
     writeIndex := 1;
     times := [num 10000000000000000; NaN];
     buffers := [[num 1; NaN]];
     firstTimestamp := Some (num 10000000000000000) |}.

Definition iso_options (s : ChartExportScope) : ChartExportOptions :=
  {| scope := s; includeTimestamps := Some true;
     timeFormat := None; format := csv |}.

Definition empty_store : @RingStore IntNumbers :=
  {| getSeries := [ {| id := 0; name := "a" |} ];
     getCapacity := 2;
     writeIndex := 0;
     times := [NaN; NaN];
     buffers := [[NaN; NaN]];
     firstTimestamp := None |}.

Definition empty_snapshot : @ViewPortData IntNumbers :=
  {| vp_series := [];
     getTimes := [];
     getSeriesData := fun _ => [];
     vp_firstTimestamp := None |}.

(** The view of all of [sample_store]. *)
Definition sample_snapshot : @ViewPortData IntNumbers :=
  {| vp_series := [ {| id := 0; name := "a" |}; {| id := 1; name := "b" |} ];
     getTimes := [num 20; num 30];
     getSeriesData := fun s =>
       if s =? 0 then [num 2; num 3]
       else if s =? 1 then [num 5; NaN] else [];
     vp_firstTimestamp := Some (num 10) |}.

Definition csv_options (s : ChartExportScope) : ChartExportOptions :=
  {| scope := s; includeTimestamps := Some true;
     timeFormat := Some timestamp; format := csv |}.

Definition wav_options (s : ChartExportScope) : ChartExportOptions :=
  {| scope := s; includeTimestamps := None; timeFormat := None; format := wav |}.

End ChartExport.
(** * Properties of the frame decoder *)

Module CobsProofs.
Import Cobs.

Lemma len_app {A : Type} (xs ys : list A) : len (xs ++ ys) = len xs + len ys.
Proof. unfold len. rewrite length_app. lia. Qed.

Lemma len_cons {A : Type} (x : A) (xs : list A) : len (x :: xs) = 1 + len xs.
Proof. unfold len. simpl length. lia. Qed.

Lemma len_nonneg {A : Type} (xs : list A) : 0 <= len xs.
Proof. unfold len. lia. Qed.

Lemma len_zero_nil {A : Type} (xs : list A) : (len xs =? 0) = true <-> xs = [].
Proof.
  unfold len. destruct xs; simpl; split; intros H; try reflexivity;
    try discriminate.
Qed.

Lemma slice_empty {A : Type} (data : list A) (a b : Z) :
  b <= a -> slice data a b = [].
Proof.
  intros H. unfold slice.
  replace (Z.to_nat (b - a)) with O by lia. reflexivity.
Qed.

Lemma skipn_nth_cons (data : list Z) (n : nat) :
  (n < length data)%nat ->
  skipn n data = nth n data 0 :: skipn (S n) data.
Proof.
  revert n. induction data as [|x xs IH]; intros n H; simpl in H.
  - lia.
  - destruct n as [|n]; [reflexivity|].
    simpl. apply IH. lia.
Qed.

Lemma slice_step (data : list Z) (a b : Z) :
  0 <= a -> a < b -> a < len data ->
  slice data a b = get data a :: slice data (a + 1) b.
Proof.
  intros Ha Hab Hlen. unfold slice, get, len in *.
  rewrite (skipn_nth_cons data (Z.to_nat a)) by lia.
  replace (Z.to_nat (b - a)) with (S (Z.to_nat (b - (a + 1)))) by lia.
  replace (Z.to_nat (a + 1)) with (S (Z.to_nat a)) by lia.
  reflexivity.
Qed.

(** The inner loop copies the slice up to the block end or the end of the
    input, whichever comes first. *)
Lemma copy_block_slice (data : list Z) (e : Z) :
  forall (fuel : nat) (j : Z) (output : list Z),
    0 <= j -> len data - j <= Z.of_nat fuel ->
    copy_block fuel data j e output
    = output ++ slice data j (Z.min e (len data)).
Proof.
  induction fuel as [|fuel IH]; intros j output Hj Hfuel; simpl.
  - rewrite slice_empty by lia. now rewrite app_nil_r.
  - destruct (j <? e) eqn:Hje; destruct (j <? len data) eqn:Hjl; simpl;
      try (rewrite slice_empty by lia; now rewrite app_nil_r).
    apply Z.ltb_lt in Hje, Hjl.
    rewrite IH by lia.
    rewrite (slice_step data j) by lia.
    now rewrite <- app_assoc.
Qed.

(** One turn of the outer loop, in terms of the block it consumes. *)
Lemma decode_loop_turn (fuel : nat) (data : list Z) (i : Z) (output : list Z) :
  0 <= i -> i < len data -> accepted data i ->
  decode_loop (S fuel) data i output
  = decode_loop fuel data (i + get data i)
      (output ++ block_contribution data i).
Proof.
  intros Hi Hlt [Hnz Hend]. simpl.
  apply Z.ltb_lt in Hlt as Hlt'. rewrite Hlt'.
  destruct (get data i =? 0) eqn:Hc; [apply Z.eqb_eq in Hc; contradiction|].
  destruct (i + get data i >? len data + 1) eqn:Hg;
    [rewrite Z.gtb_ltb in Hg; apply Z.ltb_lt in Hg; lia|].
  simpl. rewrite copy_block_slice by (unfold len; lia).
  unfold block_contribution, block_bytes, block_zero.
  destruct ((get data i <? 255) && (i + get data i <? len data));
    [now rewrite <- app_assoc | now rewrite app_nil_r].
Qed.

Lemma decode_loop_reject (fuel : nat) (data : list Z) (i : Z) (output : list Z) :
  i < len data -> rejected data i ->
  decode_loop (S fuel) data i output = COBSDecoderError "Invalid COBS data".
Proof.
  intros Hlt Hrej. simpl.
  apply Z.ltb_lt in Hlt. rewrite Hlt.
  destruct Hrej as [H0|Hbig].
  - apply Z.eqb_eq in H0. now rewrite H0.
  - assert (Hg : (i + get data i >? len data + 1) = true)
      by (rewrite Z.gtb_ltb; apply Z.ltb_lt; lia).
    rewrite Hg. now rewrite orb_true_r.
Qed.

Lemma decode_loop_exit (fuel : nat) (data : list Z) (i : Z) (output : list Z) :
  len data <= i ->
  decode_loop (S fuel) data i output = Returned (Uint8Array_from output).
Proof.
  intros H. simpl.
  destruct (i <? len data) eqn:E; [apply Z.ltb_lt in E; lia | reflexivity].
Qed.

Lemma accepted_or_rejected (data : list Z) (i : Z) :
  accepted data i \/ rejected data i.
Proof. unfold accepted, rejected. lia. Qed.

Lemma accepted_not_rejected (data : list Z) (i : Z) :
  accepted data i -> rejected data i -> False.
Proof. unfold accepted, rejected. lia. Qed.

Lemma get_is_byte (data : list Z) (i : Z) : bytes data -> is_byte (get data i).
Proof.
  intros H. unfold get.
  destruct (Nat.lt_ge_cases (Z.to_nat i) (length data)) as [Hlt|Hge].
  - unfold bytes in H. rewrite Forall_forall in H. apply H. now apply nth_In.
  - rewrite nth_overflow by lia. unfold is_byte. lia.
Qed.

Lemma Uint8Array_from_bytes (output : list Z) :
  bytes output -> Uint8Array_from output = output.
Proof.
  unfold bytes, Uint8Array_from, is_byte.
  induction 1 as [|x xs Hx _ IH]; simpl; [reflexivity|].
  rewrite IH. f_equal. now apply Z.mod_small.
Qed.

Lemma bytes_slice (data : list Z) (a b : Z) : bytes data -> bytes (slice data a b).
Proof.
  unfold bytes, slice. rewrite !Forall_forall. intros H x Hx.
  apply H.
  rewrite <- (firstn_skipn (Z.to_nat a) data). apply in_or_app. right.
  rewrite <- (firstn_skipn (Z.to_nat (b - a)) (skipn (Z.to_nat a) data)).
  apply in_or_app. now left.
Qed.

Lemma bytes_block_contribution (data : list Z) (i : Z) :
  bytes data -> bytes (block_contribution data i).
Proof.
  intros H. unfold block_contribution, block_bytes, block_zero.
  apply Forall_app. split; [now apply bytes_slice|].
  destruct (_ && _); repeat constructor; unfold is_byte; lia.
Qed.

Lemma bytes_flat_map (data : list Z) (offsets : list Z) :
  bytes data -> bytes (flat_map (block_contribution data) offsets).
Proof.
  intros H. induction offsets as [|i offsets IH]; simpl; [constructor|].
  apply Forall_app. split; [now apply bytes_block_contribution | exact IH].
Qed.

(** What a run of the loop does, whatever the fuel beyond the distance to the
    end of the input: it throws at the first rejected code it reads, and
    returns the concatenated block contributions when every code it reads is
    accepted. *)
Lemma decode_loop_cases (data : list Z) :
  bytes data ->
  forall (fuel : nat) (i : Z) (output : list Z),
    0 <= i -> Z.max 0 (len data - i) < Z.of_nat fuel ->
    (exists j, reads_from data i j /\ rejected data j) /\
    decode_loop fuel data i output = COBSDecoderError "Invalid COBS data"
    \/
    (forall j, reads_from data i j -> accepted data j) /\
    decode_loop fuel data i output
    = Returned (Uint8Array_from
        (output ++ flat_map (block_contribution data)
                     (block_offsets fuel data i))).
Proof.
  intros Hb. induction fuel as [|fuel IH]; intros i output Hi Hfuel; [lia|].
  destruct (Z.lt_ge_cases i (len data)) as [Hlt|Hge].
  - destruct (accepted_or_rejected data i) as [Hacc|Hrej].
    + rewrite decode_loop_turn by assumption.
      pose proof (get_is_byte data i Hb) as Hcode.
      destruct Hacc as [Hnz Hend]. unfold is_byte in Hcode.
      destruct (IH (i + get data i) (output ++ block_contribution data i))
        as [[[j [Hr Hj]] Hthrow]|[Hall Hret]]; try lia.
      * left. split; [|exact Hthrow].
        exists j. split; [|exact Hj].
        apply reads_later; [assumption | now split | assumption].
      * right. split.
        -- intros j Hr. inversion Hr; subst; [now split | now apply Hall].
        -- rewrite Hret. simpl block_offsets.
           apply Z.ltb_lt in Hlt. rewrite Hlt. simpl flat_map.
           now rewrite <- app_assoc.
    + left. split; [|now apply decode_loop_reject].
      exists i. split; [now apply reads_here | assumption].
  - right. split.
    + intros j Hr. inversion Hr; lia.
    + rewrite decode_loop_exit by assumption. simpl block_offsets.
      destruct (i <? len data) eqn:E; [apply Z.ltb_lt in E; lia|].
      simpl. now rewrite app_nil_r.
Qed.

Lemma decodeCOBS_cases (data : list Z) :
  bytes data ->
  (exists j, code_read_at data j /\ rejected data j) /\
  decodeCOBS data = COBSDecoderError "Invalid COBS data"
  \/
  (forall j, code_read_at data j -> accepted data j) /\
  decodeCOBS data = Returned (decode_blocks data).
Proof.
  intros Hb. unfold decodeCOBS, decode_blocks, code_read_at.
  destruct (decode_loop_cases data Hb (S (length data)) 0 [])
    as [H|[Hall Hret]]; [lia | unfold len; lia | now left |].
  right. split; [exact Hall|].
  rewrite Hret. simpl app.
  now rewrite Uint8Array_from_bytes by now apply bytes_flat_map.
Qed.

(** *** Blocks laid out by the encoder *)

Section EncodedBlock.
Variables (pre body rest : list Z).

(** A frame in which a block with body [body] starts right after [pre]. *)
Local Notation "'frame'" := (pre ++ (len body + 1) :: body ++ rest).

Lemma frame_get : get frame (len pre) = len body + 1.
Proof.
  unfold get, len. rewrite Nat2Z.id.
  rewrite app_nth2 by lia. now rewrite Nat.sub_diag.
Qed.

Lemma frame_len : len frame = len pre + (len body + 1) + len rest.
Proof. rewrite len_app, len_cons, len_app. lia. Qed.

Lemma frame_accepted : accepted frame (len pre).
Proof.
  unfold accepted. rewrite frame_get, frame_len.
  pose proof (len_nonneg body). pose proof (len_nonneg rest). lia.
Qed.

Lemma frame_block_bytes : block_bytes frame (len pre) = body.
Proof.
  unfold block_bytes. rewrite frame_get, frame_len.
  pose proof (len_nonneg rest) as Hrest.
  rewrite Z.min_l by lia.
  unfold slice.
  replace (Z.to_nat (len pre + 1)) with (length pre + 1)%nat
    by (unfold len; lia).
  replace (Z.to_nat (len pre + (len body + 1) - (len pre + 1)))
    with (length body + 0)%nat by (unfold len; lia).
  rewrite skipn_app, skipn_all2 by lia.
  replace (length pre + 1 - length pre)%nat with 1%nat by lia.
  simpl. rewrite firstn_app_2. simpl. now rewrite app_nil_r.
Qed.

Lemma frame_block_zero :
  block_zero frame (len pre)
  = if (len body + 1 <? 255) && (0 <? len rest) then [0] else [].
Proof.
  unfold block_zero. rewrite frame_get, frame_len.
  replace (len pre + (len body + 1) <? len pre + (len body + 1) + len rest)
    with (0 <? len rest); [reflexivity|].
  destruct (0 <? len rest) eqn:E; symmetry.
  - apply Z.ltb_lt in E. apply Z.ltb_lt. lia.
  - apply Z.ltb_ge in E. apply Z.ltb_ge. lia.
Qed.

(** A turn of the loop at the start of the block consumes it whole. *)
Lemma frame_turn (fuel : nat) (output : list Z) :
  decode_loop (S fuel) frame (len pre) output
  = decode_loop fuel frame (len (pre ++ (len body + 1) :: body))
      (output ++ body ++
         if (len body + 1 <? 255) && (0 <? len rest) then [0] else []).
Proof.
  rewrite decode_loop_turn.
  - unfold block_contribution.
    rewrite frame_get, frame_block_bytes, frame_block_zero.
    rewrite len_app, len_cons. do 2 f_equal. lia.
  - apply len_nonneg.
  - rewrite frame_len.
    pose proof (len_nonneg body). pose proof (len_nonneg rest). lia.
  - apply frame_accepted.
Qed.
End EncodedBlock.

Lemma encode_from_nonempty (closing : bool) (data block : list Z) :
  0 < len (encode_from closing block data).
Proof.
  revert block. induction data as [|b rest IH]; intros block; simpl.
  - rewrite len_cons. pose proof (len_nonneg block). lia.
  - destruct (b =? 0).
    + rewrite len_cons.
      pose proof (len_nonneg (block ++ encode_from closing [] rest)). lia.
    + destruct (len (block ++ [b]) =? 254); [|apply IH].
      rewrite len_cons.
      match goal with |- 0 < 1 + len ?l => pose proof (len_nonneg l) end. lia.
Qed.

(** Decoding what the encoder lays out behind [pre], with [block] the run
    still open, appends the run and the data to the output. *)
Lemma decode_encode_from (closing : bool) (data : list Z) :
  forall (block pre output : list Z) (fuel : nat),
    len block < 254 ->
    len (encode_from closing block data) < Z.of_nat fuel ->
    decode_loop fuel (pre ++ encode_from closing block data) (len pre) output
    = Returned (Uint8Array_from (output ++ block ++ data)).
Proof.
  induction data as [|b rest IH]; intros block pre output fuel Hblock Hfuel.
  - simpl encode_from in *. rewrite len_cons in Hfuel.
    pose proof (len_nonneg block) as Hnn.
    destruct fuel as [|[|fuel]]; try lia.
    rewrite <- (app_nil_r block) at 2.
    rewrite frame_turn. rewrite decode_loop_exit.
    + replace (0 <? len (@nil Z)) with false by reflexivity.
      now rewrite andb_false_r, !app_nil_r.
    + rewrite app_nil_r, !len_app, !len_cons. lia.
  - simpl encode_from in *. destruct (b =? 0) eqn:Hb0.
    + apply Z.eqb_eq in Hb0. subst b.
      rewrite len_cons, len_app in Hfuel.
      pose proof (len_nonneg block) as Hnn.
      pose proof (encode_from_nonempty closing rest []) as Hne.
      destruct fuel as [|fuel]; [lia|].
      rewrite frame_turn.
      apply Z.ltb_lt in Hne as Hne'. rewrite Hne'.
      assert (Hc : (len block + 1 <? 255) = true) by (apply Z.ltb_lt; lia).
      rewrite Hc. simpl andb.
      replace (pre ++ (len block + 1) :: block ++ encode_from closing [] rest)
        with ((pre ++ (len block + 1) :: block) ++ encode_from closing [] rest)
        by (rewrite <- app_assoc; reflexivity).
      rewrite IH by (unfold len in *; simpl; lia).
      simpl app. now rewrite <- !app_assoc.
    + destruct (len (block ++ [b]) =? 254) eqn:Hfull.
      * apply Z.eqb_eq in Hfull.
        replace 255 with (len (block ++ [b]) + 1) in * by lia.
        assert (Hc : (len (block ++ [b]) + 1 <? 255) = false)
          by (apply Z.ltb_ge; lia).
        destruct ((len rest =? 0) && negb closing) eqn:Hlast.
        -- apply andb_prop in Hlast as [Hrest _].
           apply len_zero_nil in Hrest. subst rest.
           rewrite len_cons, len_app in Hfuel.
           change (len (@nil Z)) with 0 in Hfuel.
           pose proof (len_nonneg (block ++ [b])).
           destruct fuel as [|[|fuel]]; try lia.
           rewrite frame_turn, decode_loop_exit.
           ++ rewrite Hc. simpl andb. now rewrite !app_nil_r.
           ++ rewrite app_nil_r, !len_app, !len_cons. lia.
        -- rewrite len_cons, len_app in Hfuel.
           pose proof (len_nonneg (block ++ [b])).
           pose proof (len_nonneg (encode_from closing [] rest)).
           destruct fuel as [|fuel]; [lia|].
           rewrite frame_turn. rewrite Hc. simpl andb.
           replace (pre ++ (len (block ++ [b]) + 1) :: (block ++ [b])
                      ++ encode_from closing [] rest)
             with ((pre ++ (len (block ++ [b]) + 1) :: (block ++ [b]))
                      ++ encode_from closing [] rest)
             by (rewrite <- app_assoc; reflexivity).
           rewrite IH by (unfold len in *; simpl; lia).
           simpl app. rewrite app_nil_r. now rewrite <- !app_assoc.
      * apply Z.eqb_neq in Hfull. rewrite len_app, len_cons in Hfull.
        change (len (@nil Z)) with 0 in Hfull.
        rewrite IH.
        -- now rewrite <- !app_assoc.
        -- rewrite len_app, len_cons. change (len (@nil Z)) with 0. lia.
        -- exact Hfuel.
Qed.

(** C1: for every byte sequence [b], encoding it (with either convention
    for closing a final full run) and decoding the result with
    [decodeCOBS] returns exactly [b].  The lengths 0, 1, 254, 255 and 256
    and more are instances. *)
Theorem decodeCOBS_encodeCOBS (closing : bool) (b : list Z) :
  bytes b -> decodeCOBS (encodeCOBS closing b) = Returned b.
Proof.
  intros Hb. unfold decodeCOBS, encodeCOBS.
  change (encode_from closing [] b) with ([] ++ encode_from closing [] b) at 2.
  change 0 with (len (@nil Z)).
  rewrite decode_encode_from.
  - simpl app. now rewrite Uint8Array_from_bytes.
  - reflexivity.
  - unfold len. lia.
Qed.

Lemma decodeCOBS_encodeCOBS_witness :
  bytes [0; 17; 0; 255] /\
  decodeCOBS (encodeCOBS true [0; 17; 0; 255]) = Returned [0; 17; 0; 255].
Proof.
  assert (H : bytes [0; 17; 0; 255])
    by (repeat constructor; unfold is_byte; lia).
  split; [exact H | exact (decodeCOBS_encodeCOBS true [0; 17; 0; 255] H)].
Defined.

(** C2: on a byte sequence, [decodeCOBS] throws the framing error exactly
    when some offset at which it reads a length code holds 0 or a code
    whose block end exceeds the input length plus 1; in every other case
    it returns a decoded sequence.  An outcome is either the error or a
    returned array, so an error comes with no output. *)
Theorem decodeCOBS_framing_error (data : list Z) :
  bytes data ->
  (decodeCOBS data = COBSDecoderError "Invalid COBS data" <->
   exists j, code_read_at data j /\
             (get data j = 0 \/ j + get data j > len data + 1)) /\
  ((~ exists j, code_read_at data j /\
                (get data j = 0 \/ j + get data j > len data + 1)) ->
   exists decoded, decodeCOBS data = Returned decoded) /\
  (decodeCOBS data = COBSDecoderError "Invalid COBS data" \/
   exists decoded, decodeCOBS data = Returned decoded).
Proof.
  intros Hb.
  change (fun j => get data j = 0 \/ j + get data j > len data + 1)
    with (rejected data).
  destruct (decodeCOBS_cases data Hb) as [[Hex Hthrow]|[Hall Hret]].
  - split; [|split].
    + split; [intros _; exact Hex | intros _; exact Hthrow].
    + intros Hno. contradiction.
    + now left.
  - assert (Hno : ~ exists j, code_read_at data j /\ rejected data j).
    { intros [j [Hr Hj]]. exact (accepted_not_rejected _ _ (Hall j Hr) Hj). }
    split; [|split].
    + split; [rewrite Hret; discriminate | intros Hex; contradiction].
    + intros _. now exists (decode_blocks data).
    + right. now exists (decode_blocks data).
Qed.

Lemma decodeCOBS_framing_error_witness :
  bytes [2; 17; 0; 5] /\
  decodeCOBS [2; 17; 0; 5] = COBSDecoderError "Invalid COBS data".
Proof.
  assert (H : bytes [2; 17; 0; 5])
    by (repeat constructor; unfold is_byte; lia).
  split; [exact H|].
  apply (proj1 (decodeCOBS_framing_error [2; 17; 0; 5] H)).
  exists 2. split.
  - apply reads_later with (i := 0); [reflexivity | | apply reads_here; reflexivity].
    split; [discriminate | discriminate].
  - left. reflexivity.
Defined.

(** C3: on a byte sequence that [decodeCOBS] decodes, the result is the
    concatenation, block after block, of the next [n - 1] input bytes (cut
    at the end of the input) followed by one zero exactly when
    [n < 0xFF] and input remains beyond the block; a block with code 0xFF
    never contributes a zero. *)
Theorem decodeCOBS_blocks (data decoded : list Z) :
  bytes data ->
  decodeCOBS data = Returned decoded ->
  decoded = decode_blocks data /\
  (forall i, block_contribution data i
             = slice data (i + 1) (Z.min (i + get data i) (len data))
               ++ if (get data i <? 255) && (i + get data i <? len data)
                  then [0] else []) /\
  (forall i, get data i = 255 -> block_zero data i = []).
Proof.
  intros Hb Hret.
  destruct (decodeCOBS_cases data Hb) as [[_ Hthrow]|[_ Hok]].
  - rewrite Hthrow in Hret. discriminate.
  - rewrite Hok in Hret. injection Hret as <-.
    repeat split.
    intros i Hi. unfold block_zero. now rewrite Hi.
Qed.

Lemma decodeCOBS_blocks_witness :
  decodeCOBS [3; 17; 34; 2; 51] = Returned [17; 34; 0; 51] /\
  [17; 34; 0; 51] = decode_blocks [3; 17; 34; 2; 51].
Proof.
  split; [reflexivity|].
  apply (decodeCOBS_blocks [3; 17; 34; 2; 51] [17; 34; 0; 51]).
  - repeat constructor; unfold is_byte; lia.
  - reflexivity.
Defined.

End CobsProofs.

Module CobsExamples.
Import Cobs.

Example decode_empty : decodeCOBS [] = Returned [].
Proof. reflexivity. Qed.

Example decode_hello :
  decodeCOBS [3; 17; 34; 2; 51] = Returned [17; 34; 0; 51].
Proof. reflexivity. Qed.

Example decode_zero_code :
  decodeCOBS [2; 17; 0; 5] = COBSDecoderError "Invalid COBS data".
Proof. reflexivity. Qed.

Example decode_one_short : decodeCOBS [3; 17] = Returned [17].
Proof. reflexivity. Qed.

Example decode_two_short :
  decodeCOBS [4; 17] = COBSDecoderError "Invalid COBS data".
Proof. reflexivity. Qed.

Example encode_nothing : encodeCOBS true [] = [1].
Proof. reflexivity. Qed.

Example encode_zero : encodeCOBS true [0] = [1; 1].
Proof. reflexivity. Qed.

Example encode_mixed : encodeCOBS true [17; 34; 0; 51] = [3; 17; 34; 2; 51].
Proof. reflexivity. Qed.

Example encode_full_run_closed :
  encodeCOBS true (repeat 7 254) = 255 :: repeat 7 254 ++ [1].
Proof. vm_compute. reflexivity. Qed.

Example encode_full_run_open :
  encodeCOBS false (repeat 7 254) = 255 :: repeat 7 254.
Proof. vm_compute. reflexivity. Qed.

Example encode_past_full_run :
  encodeCOBS false (repeat 7 255) = 255 :: repeat 7 254 ++ [2; 7].
Proof. vm_compute. reflexivity. Qed.

Example roundtrip_lengths :
  forallb (fun n =>
    match decodeCOBS (encodeCOBS true (repeat 7 n)),
          decodeCOBS (encodeCOBS false (repeat 0 n)) with
    | Returned d1, Returned d2 =>
        if list_eq_dec Z.eq_dec d1 (repeat 7 n) then
          if list_eq_dec Z.eq_dec d2 (repeat 0 n) then true else false
        else false
    | _, _ => false
    end) [0; 1; 253; 254; 255; 256; 600]%nat = true.
Proof. vm_compute. reflexivity. Qed.

End CobsExamples.


(** * Further properties of the frame decoder *)

Module CobsMore.
Import Cobs.
Import CobsProofs.

Lemma len_slice {A : Type} (data : list A) (a b : Z) :
  0 <= a -> a <= b -> b <= len data -> len (slice data a b) = b - a.
Proof.
  intros Ha Hab Hb. unfold slice, len in *.
  rewrite length_firstn, length_skipn. lia.
Qed.

Lemma len_block_contribution (data : list Z) (i : Z) :
  0 <= i -> i < len data -> 1 <= get data i ->
  len (block_contribution data i)
  = if i + get data i <? len data
    then get data i - 1 + (if get data i <? 255 then 1 else 0)
    else len data - i - 1.
Proof.
  intros Hi Hlt Hcode. unfold block_contribution, block_bytes, block_zero.
  rewrite len_app.
  destruct (i + get data i <? len data) eqn:E.
  - apply Z.ltb_lt in E. rewrite Z.min_l by lia.
    rewrite len_slice by lia.
    destruct (get data i <? 255); simpl; unfold len; simpl; lia.
  - apply Z.ltb_ge in E. rewrite Z.min_r by lia.
    rewrite len_slice by lia.
    rewrite andb_false_r. unfold len at 2. simpl. lia.
Qed.

(** The blocks read from offset [i] on decode to fewer bytes than the
    input has from [i] on. *)
Lemma len_decoded_from (data : list Z) :
  bytes data ->
  forall (fuel : nat) (i : Z),
    0 <= i -> i < len data ->
    (forall j, reads_from data i j -> accepted data j) ->
    len (flat_map (block_contribution data) (block_offsets fuel data i))
    < len data - i.
Proof.
  intros Hb. induction fuel as [|fuel IH]; intros i Hi Hlt Hall.
  - simpl. change (len (@nil Z)) with 0. lia.
  - simpl block_offsets. apply Z.ltb_lt in Hlt as Hlt'. rewrite Hlt'.
    simpl flat_map. rewrite len_app.
    pose proof (get_is_byte data i Hb) as Hcode. unfold is_byte in Hcode.
    destruct (Hall i (reads_here data i Hlt)) as [Hnz Hend].
    rewrite len_block_contribution by lia.
    destruct (i + get data i <? len data) eqn:E.
    + apply Z.ltb_lt in E.
      assert (Hrest : len (flat_map (block_contribution data)
                             (block_offsets fuel data (i + get data i)))
                      < len data - (i + get data i)).
      { apply IH; try lia. intros j Hj. apply Hall.
        apply reads_later; [assumption | now split | assumption]. }
      destruct (get data i <? 255); lia.
    + apply Z.ltb_ge in E.
      destruct fuel as [|fuel]; simpl block_offsets.
      * simpl flat_map. change (len (@nil Z)) with 0. lia.
      * destruct (i + get data i <? len data) eqn:E';
          [apply Z.ltb_lt in E'; lia|].
        simpl flat_map. change (len (@nil Z)) with 0. lia.
Qed.

(** X1: decoding costs at least one byte.  What [decodeCOBS] returns for a
    non-empty byte sequence is strictly shorter than the input. *)
Theorem decodeCOBS_shorter (data decoded : list Z) :
  bytes data -> data <> [] ->
  decodeCOBS data = Returned decoded ->
  len decoded < len data.
Proof.
  intros Hb Hne Hret.
  destruct (decodeCOBS_cases data Hb) as [[_ Hthrow]|[Hall Hok]].
  - rewrite Hthrow in Hret. discriminate.
  - rewrite Hok in Hret. injection Hret as <-.
    unfold decode_blocks.
    assert (Hpos : 0 < len data)
      by (destruct data; [contradiction | rewrite len_cons;
          match goal with |- 0 < 1 + len ?l => pose proof (len_nonneg l) end;
          lia]).
    pose proof (len_decoded_from data Hb (S (length data)) 0) as H.
    rewrite Z.sub_0_r in H. apply H; [lia | assumption | exact Hall].
Qed.

Lemma decodeCOBS_shorter_witness :
  decodeCOBS [3; 17; 34; 2; 51] = Returned [17; 34; 0; 51] /\
  len [17; 34; 0; 51] < len [3; 17; 34; 2; 51].
Proof.
  split; [reflexivity|].
  apply (decodeCOBS_shorter [3; 17; 34; 2; 51] [17; 34; 0; 51]).
  - repeat constructor; unfold is_byte; lia.
  - discriminate.
  - reflexivity.
Defined.

(** X2: the guard lets a last code point one byte past the end.  A frame
    of one block whose code is the body length plus 1 or plus 2 decodes to
    the body; a larger code is a framing error. *)
Theorem decodeCOBS_single_block (code : Z) (body : list Z) :
  bytes body -> is_byte code -> len body < code ->
  decodeCOBS (code :: body)
  = if code <=? len body + 2 then Returned body
    else COBSDecoderError "Invalid COBS data".
Proof.
  intros Hb Hcode Hlong. unfold is_byte in Hcode.
  pose proof (len_nonneg body) as Hnn.
  unfold decodeCOBS.
  assert (Hget : get (code :: body) 0 = code) by reflexivity.
  destruct (code <=? len body + 2) eqn:E.
  - apply Z.leb_le in E.
    rewrite decode_loop_turn;
      [| lia | rewrite len_cons; lia
       | unfold accepted; rewrite Hget, len_cons; lia].
    rewrite Hget. simpl app.
    destruct (length (code :: body)) eqn:Hl; [discriminate|].
    rewrite decode_loop_exit by (rewrite len_cons; lia).
    unfold block_contribution, block_bytes, block_zero.
    rewrite Hget, len_cons.
    assert (Hz : (0 + code <? 1 + len body) = false) by (apply Z.ltb_ge; lia).
    rewrite Hz, andb_false_r, app_nil_r.
    rewrite Z.min_r by lia.
    unfold slice. replace (Z.to_nat (0 + 1)) with 1%nat by lia.
    replace (Z.to_nat (1 + len body - (0 + 1))) with (length body)
      by (unfold len; lia).
    simpl skipn. rewrite firstn_all.
    now rewrite Uint8Array_from_bytes.
  - apply Z.leb_gt in E.
    apply decode_loop_reject; [rewrite len_cons; lia|].
    right. rewrite Hget, len_cons. lia.
Qed.

Lemma decodeCOBS_single_block_witness :
  decodeCOBS [3; 17; 34] = Returned [17; 34] /\
  decodeCOBS [4; 17; 34] = Returned [17; 34] /\
  decodeCOBS [5; 17; 34] = COBSDecoderError "Invalid COBS data".
Proof.
  assert (Hb : bytes [17; 34]) by (repeat constructor; unfold is_byte; lia).
  split; [|split].
  - apply (decodeCOBS_single_block 3 [17; 34] Hb); [unfold is_byte; lia | reflexivity].
  - apply (decodeCOBS_single_block 4 [17; 34] Hb); [unfold is_byte; lia | reflexivity].
  - apply (decodeCOBS_single_block 5 [17; 34] Hb); [unfold is_byte; lia | reflexivity].
Defined.

(** Fuel beyond the distance to the end of the input does not matter. *)
Lemma decode_loop_fuel (data : list Z) :
  bytes data ->
  forall (fuel1 fuel2 : nat) (i : Z) (output : list Z),
    0 <= i ->
    Z.max 0 (len data - i) < Z.of_nat fuel1 ->
    Z.max 0 (len data - i) < Z.of_nat fuel2 ->
    decode_loop fuel1 data i output = decode_loop fuel2 data i output.
Proof.
  intros Hb. induction fuel1 as [|fuel1 IH]; intros fuel2 i output Hi H1 H2;
    [lia|].
  destruct fuel2 as [|fuel2]; [lia|].
  destruct (Z.lt_ge_cases i (len data)) as [Hlt|Hge].
  - destruct (accepted_or_rejected data i) as [Hacc|Hrej].
    + rewrite !decode_loop_turn by assumption.
      pose proof (get_is_byte data i Hb) as Hcode. unfold is_byte in Hcode.
      destruct Hacc as [Hnz _]. apply IH; lia.
    + now rewrite !decode_loop_reject.
  - now rewrite !decode_loop_exit.
Qed.

Section Suffix.
Variables (pre rest : list Z).

Lemma suffix_get (i : Z) : 0 <= i -> get (pre ++ rest) (len pre + i) = get rest i.
Proof.
  intros Hi. unfold get, len.
  rewrite app_nth2 by lia. f_equal. lia.
Qed.

Lemma suffix_slice (a b : Z) :
  0 <= a -> slice (pre ++ rest) (len pre + a) (len pre + b) = slice rest a b.
Proof.
  intros Ha. unfold slice, len.
  replace (Z.to_nat (Z.of_nat (length pre) + a))
    with (length pre + Z.to_nat a)%nat by lia.
  rewrite skipn_app, skipn_all2 by lia.
  replace (length pre + Z.to_nat a - length pre)%nat with (Z.to_nat a) by lia.
  simpl. f_equal. lia.
Qed.

Lemma suffix_block_contribution (i : Z) :
  0 <= i ->
  block_contribution (pre ++ rest) (len pre + i) = block_contribution rest i.
Proof.
  intros Hi. unfold block_contribution, block_bytes, block_zero.
  rewrite suffix_get, len_app by assumption.
  replace (Z.min (len pre + i + get rest i) (len pre + len rest))
    with (len pre + Z.min (i + get rest i) (len rest)) by lia.
  replace (len pre + i + 1) with (len pre + (i + 1)) by lia.
  rewrite suffix_slice by lia.
  replace (len pre + i + get rest i <? len pre + len rest)
    with (i + get rest i <? len rest); [reflexivity|].
  destruct (i + get rest i <? len rest) eqn:E; symmetry.
  - apply Z.ltb_lt in E. apply Z.ltb_lt. lia.
  - apply Z.ltb_ge in E. apply Z.ltb_ge. lia.
Qed.

(** A run entered behind [pre] goes as the run on [rest] alone. *)
Lemma decode_loop_suffix :
  bytes rest ->
  forall (fuel : nat) (i : Z) (before output : list Z),
    0 <= i ->
    decode_loop fuel (pre ++ rest) (len pre + i) (before ++ output)
    = prepend (Uint8Array_from before) (decode_loop fuel rest i output).
Proof.
  intros Hb. induction fuel as [|fuel IH]; intros i before output Hi;
    [reflexivity|].
  pose proof (len_nonneg pre) as Hpre.
  destruct (Z.lt_ge_cases i (len rest)) as [Hlt|Hge].
  - destruct (accepted_or_rejected rest i) as [Hacc|Hrej].
    + pose proof (get_is_byte rest i Hb) as Hcode. unfold is_byte in Hcode.
      rewrite (decode_loop_turn fuel rest) by assumption.
      rewrite decode_loop_turn.
      * rewrite suffix_get, suffix_block_contribution by assumption.
        rewrite <- app_assoc, <- Z.add_assoc. apply IH. lia.
      * lia.
      * rewrite len_app. lia.
      * unfold accepted in *. rewrite suffix_get, len_app by assumption. lia.
    + rewrite (decode_loop_reject fuel rest) by assumption.
      rewrite decode_loop_reject; [reflexivity | rewrite len_app; lia |].
      unfold rejected in *. rewrite suffix_get, len_app by assumption. lia.
  - rewrite !decode_loop_exit by (try rewrite len_app; lia).
    simpl. unfold Uint8Array_from. now rewrite map_app.
Qed.
End Suffix.

(** X3: the decoder works block by block.  A frame that starts with a
    whole block (code, then code - 1 bytes) decodes to the block's bytes,
    a zero when the code is below 0xFF and more input follows, and what the
    rest of the frame decodes to on its own; an error in the rest is the
    error of the whole frame. *)
Theorem decodeCOBS_first_block (body rest : list Z) :
  bytes body -> bytes rest -> len body < 255 ->
  decodeCOBS ((len body + 1) :: body ++ rest)
  = prepend
      (body ++ if (len body + 1 <? 255) && (0 <? len rest) then [0] else [])
      (decodeCOBS rest).
Proof.
  intros Hbody Hrest Hlen. unfold decodeCOBS.
  change ((len body + 1) :: body ++ rest)
    with ([] ++ (len body + 1) :: body ++ rest).
  change 0 with (len (@nil Z)) at 1.
  rewrite frame_turn. simpl app.
  set (zero := if (len body + 1 <? 255) && (0 <? len rest) then [0] else []).
  change ((len body + 1) :: body ++ rest)
    with (((len body + 1) :: body) ++ rest).
  rewrite <- (Z.add_0_r (len ((len body + 1) :: body))).
  rewrite <- (app_nil_r (body ++ zero)).
  rewrite decode_loop_suffix by (assumption || lia).
  rewrite Uint8Array_from_bytes.
  - rewrite app_nil_r. f_equal. apply decode_loop_fuel; try assumption; try lia.
    + rewrite length_app. simpl length. unfold len. lia.
    + unfold len. lia.
  - apply Forall_app. split; [assumption|].
    unfold zero. destruct (_ && _); repeat constructor. unfold is_byte. lia.
Qed.

Lemma decodeCOBS_first_block_witness :
  decodeCOBS ([3; 17; 34] ++ [2; 51]) = Returned ([17; 34] ++ [0] ++ [51]) /\
  decodeCOBS ([3; 17; 34] ++ [0; 51]) = COBSDecoderError "Invalid COBS data".
Proof.
  assert (Hb : bytes [17; 34]) by (repeat constructor; unfold is_byte; lia).
  split.
  - refine (eq_trans (decodeCOBS_first_block [17; 34] [2; 51] Hb _ _) _);
      [repeat constructor; unfold is_byte; lia | reflexivity | reflexivity].
  - refine (eq_trans (decodeCOBS_first_block [17; 34] [0; 51] Hb _ _) _);
      [repeat constructor; unfold is_byte; lia | reflexivity | reflexivity].
Defined.

End CobsMore.

(** * Properties of the streaming line splitter *)

Module HttpStreamProofs.
Import HttpStream.

Local Notation "s +++ t" := (String.append s t)
  (at level 60, right associativity).

Lemma append_nil_r (s : string) : s +++ EmptyString = s.
Proof. induction s as [|a s IH]; simpl; [reflexivity | now rewrite IH]. Qed.

Lemma append_assoc (s t u : string) : (s +++ t) +++ u = s +++ (t +++ u).
Proof. induction s as [|a s IH]; simpl; [reflexivity | now rewrite IH]. Qed.

Lemma indexOf_lower (s : string) (c : ascii) : -1 <= indexOf s c.
Proof.
  induction s as [|a s IH]; simpl; [lia|].
  destruct (Ascii.eqb a c); [lia|].
  destruct (indexOf s c <? 0) eqn:E; [lia|]. apply Z.ltb_ge in E. lia.
Qed.

(** A text without a line feed is all unfinished line. *)
Lemma lines_of_no_LF (text : string) :
  forall cur, indexOf text LF < 0 -> lines_of cur text = ([], cur +++ text).
Proof.
  induction text as [|a text IH]; intros cur H; simpl in *.
  - now rewrite append_nil_r.
  - destruct (Ascii.eqb a LF); [lia|].
    destruct (indexOf text LF <? 0) eqn:E.
    + apply Z.ltb_lt in E. rewrite IH by assumption.
      now rewrite append_assoc.
    + pose proof (indexOf_lower text LF). apply Z.ltb_ge in E. lia.
Qed.

(** [indexOf] finds the first line feed: the text before it has none. *)
Lemma lines_of_at_index (text : string) :
  forall cur, 0 <= indexOf text LF ->
    lines_of cur text
    = (replace_trailing_CR (cur +++ slice_to text (indexOf text LF))
         :: fst (lines_of EmptyString (slice_from text (indexOf text LF + 1))),
       snd (lines_of EmptyString (slice_from text (indexOf text LF + 1)))).
Proof.
  unfold slice_to, slice_from.
  induction text as [|a text IH]; intros cur H; simpl in *; [lia|].
  destruct (Ascii.eqb a LF) eqn:Ea.
  - simpl. rewrite append_nil_r.
    now destruct (lines_of EmptyString text).
  - destruct (indexOf text LF <? 0) eqn:E; [lia|].
    apply Z.ltb_ge in E. rewrite IH by assumption.
    replace (Z.to_nat (indexOf text LF + 1))
      with (S (Z.to_nat (indexOf text LF))) by lia.
    replace (Z.to_nat (indexOf text LF + 1 + 1))
      with (S (S (Z.to_nat (indexOf text LF)))) by lia.
    simpl. now rewrite append_assoc.
Qed.

Lemma length_slice_from (text : string) :
  0 <= indexOf text LF ->
  (String.length (slice_from text (indexOf text LF + 1))
   < String.length text)%nat.
Proof.
  unfold slice_from.
  induction text as [|a text IH]; intros H; simpl in *; [lia|].
  destruct (Ascii.eqb a LF); [simpl; lia|].
  destruct (indexOf text LF <? 0) eqn:E; [lia|].
  apply Z.ltb_ge in E.
  replace (Z.to_nat (indexOf text LF + 1 + 1))
    with (S (Z.to_nat (indexOf text LF + 1))) by lia.
  simpl. specialize (IH E). lia.
Qed.

(** The inner loop hands every finished line of the buffer to the handler
    and keeps the unfinished rest. *)
Lemma split_loop_lines (fuel : nat) :
  forall buf cs,
    (String.length buf < fuel)%nat ->
    split_loop fuel true buf cs
    = {| buffer := snd (lines_of EmptyString buf);
         calls := cs ++ fst (lines_of EmptyString buf) |}.
Proof.
  induction fuel as [|fuel IH]; intros buf cs Hfuel; [lia|].
  simpl. destruct (indexOf buf LF >=? 0) eqn:E.
  - rewrite Z.geb_leb in E. apply Z.leb_le in E.
    pose proof (length_slice_from buf E) as Hshort.
    rewrite IH by lia.
    rewrite (lines_of_at_index buf EmptyString E). simpl.
    now rewrite <- app_assoc.
  - rewrite Z.geb_leb in E. apply Z.leb_gt in E.
    rewrite lines_of_no_LF by assumption. simpl. now rewrite app_nil_r.
Qed.

Lemma lines_of_append (s1 : string) :
  forall s2 cur,
    lines_of cur (s1 +++ s2)
    = (fst (lines_of cur s1) ++ fst (lines_of (snd (lines_of cur s1)) s2),
       snd (lines_of (snd (lines_of cur s1)) s2)).
Proof.
  induction s1 as [|a s1 IH]; intros s2 cur; simpl.
  - now destruct (lines_of cur s2).
  - destruct (Ascii.eqb a LF).
    + rewrite IH. now destruct (lines_of EmptyString s1).
    + apply IH.
Qed.

Lemma indexOf_append_char (s : string) (a : ascii) :
  indexOf s LF < 0 -> Ascii.eqb a LF = false ->
  indexOf (s +++ String a EmptyString) LF < 0.
Proof.
  intros Hs Ha. induction s as [|b s IH]; simpl in *.
  - rewrite Ha. simpl. lia.
  - destruct (Ascii.eqb b LF); [lia|].
    destruct (indexOf s LF <? 0) eqn:E.
    + apply Z.ltb_lt in E. specialize (IH E).
      apply Z.ltb_lt in IH. rewrite IH. lia.
    + pose proof (indexOf_lower s LF). apply Z.ltb_ge in E. lia.
Qed.

Lemma lines_of_rest_no_LF (text : string) :
  forall cur, indexOf cur LF < 0 -> indexOf (snd (lines_of cur text)) LF < 0.
Proof.
  induction text as [|a text IH]; intros cur H; simpl; [assumption|].
  destruct (Ascii.eqb a LF) eqn:Ea.
  - specialize (IH EmptyString). destruct (lines_of EmptyString text).
    simpl in *. apply IH. lia.
  - apply IH. now apply indexOf_append_char.
Qed.

(** One more chunk: the state depends on the text received, not on how it
    was cut into chunks. *)
Lemma on_read_chunk (received text : string) :
  on_read true (state_after received) (chunk text)
  = state_after (received +++ text).
Proof.
  unfold on_read, state_after, chunk. cbn [value buffer calls].
  rewrite split_loop_lines by lia.
  rewrite (lines_of_append received text EmptyString). simpl.
  assert (Hrest : indexOf (snd (lines_of EmptyString received)) LF < 0)
    by (apply lines_of_rest_no_LF; simpl; lia).
  rewrite (lines_of_append (snd (lines_of EmptyString received)) text).
  rewrite (lines_of_no_LF _ EmptyString Hrest). simpl.
  reflexivity.
Qed.

Lemma read_loop_chunks (chunks : list string) :
  forall received,
    read_loop true (map chunk chunks) (state_after received)
    = state_after (received +++ fold_right String.append EmptyString chunks).
Proof.
  induction chunks as [|c chunks IH]; intros received; simpl.
  - now rewrite append_nil_r.
  - rewrite on_read_chunk, IH. now rewrite append_assoc.
Qed.

Lemma read_loop_end (results : list read_result) :
  forall st,
    Forall (fun r => done r = false) results ->
    read_loop true (results ++ [stream_end]) st = read_loop true results st.
Proof.
  induction results as [|r results IH]; intros st H; simpl; [reflexivity|].
  inversion H as [|r' rs Hr Hrs]; subst. rewrite Hr. now apply IH.
Qed.

(** C4: however the text ["a,1\nb,2\r\nc,"] is cut into chunks, the handler
    is called exactly twice, with ["a,1"] then ["b,2"], and ["c,"] stays in
    the buffer; the end of the stream adds no call. *)
Theorem one_shot_read_sample (chunks : list string) :
  fold_right String.append EmptyString chunks = sample_text ->
  read_loop true (map chunk chunks) initial
  = {| buffer := "c,"; calls := ["a,1"; "b,2"]%string |} /\
  calls (read_loop true (map chunk chunks ++ [stream_end]) initial)
  = ["a,1"; "b,2"]%string.
Proof.
  intros Htext.
  assert (Hrun : read_loop true (map chunk chunks) initial
                 = {| buffer := "c,"; calls := ["a,1"; "b,2"]%string |}).
  { change initial with (state_after EmptyString).
    rewrite read_loop_chunks. simpl String.append. rewrite Htext.
    reflexivity. }
  split; [exact Hrun|].
  rewrite read_loop_end; [now rewrite Hrun|].
  apply Forall_forall. intros r Hr. apply in_map_iff in Hr.
  destruct Hr as [c [<- _]]. reflexivity.
Qed.

Lemma one_shot_read_sample_witness :
  read_loop true
    (map chunk ["a,"; "1" +++ String LF "b,2" +++ String CR EmptyString;
                String LF "c"; ","]%string)
    initial
  = {| buffer := "c,"; calls := ["a,1"; "b,2"]%string |}.
Proof.
  apply (one_shot_read_sample
           ["a,"; "1" +++ String LF "b,2" +++ String CR EmptyString;
            String LF "c"; ","]%string).
  reflexivity.
Defined.

Example one_shot_more_data :
  read_loop true (map chunk [sample_text; "3" +++ String LF "d"]%string) initial
  = {| buffer := "d"; calls := ["a,1"; "b,2"; "c,3"]%string |}.
Proof. reflexivity. Qed.

Example one_shot_unregistered :
  read_loop false (map chunk [sample_text]) initial
  = {| buffer := "c,"; calls := [] |}.
Proof. reflexivity. Qed.

End HttpStreamProofs.

(** * Further properties of the streaming line splitter *)

Module HttpStreamMore.
Import HttpStream.
Import HttpStreamProofs.

Local Notation "s +++ t" := (String.append s t)
  (at level 60, right associativity).

Lemma read_loop_received (chunks : list string) :
  read_loop true (map chunk chunks) initial
  = state_after (received_text chunks).
Proof.
  change initial with (state_after EmptyString).
  now rewrite read_loop_chunks.
Qed.

(** X4: the lines handed over and the text kept back depend on the text
    received, not on how the transport cut it into chunks. *)
Theorem read_loop_chunking (chunks1 chunks2 : list string) :
  received_text chunks1 = received_text chunks2 ->
  read_loop true (map chunk chunks1) initial
  = read_loop true (map chunk chunks2) initial.
Proof. intros H. now rewrite !read_loop_received, H. Qed.

Lemma read_loop_chunking_witness :
  read_loop true (map chunk ["x=1"; String LF "y="; "2" +++ String LF "z"]%string)
    initial
  = read_loop true (map chunk ["x=1" +++ String LF "y=2" +++ String LF "z"]%string)
      initial.
Proof.
  apply (read_loop_chunking
           ["x=1"; String LF "y="; "2" +++ String LF "z"]%string
           ["x=1" +++ String LF "y=2" +++ String LF "z"]%string).
  reflexivity.
Defined.

Lemma indexOf_absent_iff (s : string) (c : ascii) :
  indexOf s c < 0 <-> indexOf s c = -1.
Proof. pose proof (indexOf_lower s c). lia. Qed.

Lemma indexOf_cons (a c : ascii) (s : string) :
  indexOf (String a s) c
  = if Ascii.eqb a c then 0
    else if indexOf s c <? 0 then -1 else indexOf s c + 1.
Proof. reflexivity. Qed.

Lemma replace_trailing_CR_no_LF (line : string) :
  indexOf line LF < 0 -> indexOf (replace_trailing_CR line) LF < 0.
Proof.
  induction line as [|a line IH]; intros H; [assumption|].
  simpl in H. destruct (Ascii.eqb a LF) eqn:Ea; [lia|].
  destruct (indexOf line LF <? 0) eqn:E;
    [|pose proof (indexOf_lower line LF); apply Z.ltb_ge in E; lia].
  apply Z.ltb_lt in E. specialize (IH E).
  destruct line as [|b line].
  - simpl. destruct (Ascii.eqb a CR); simpl; [lia|]. rewrite Ea. simpl. lia.
  - change (replace_trailing_CR (String a (String b line)))
      with (String a (replace_trailing_CR (String b line))).
    rewrite indexOf_cons, Ea.
    apply Z.ltb_lt in IH. rewrite IH. lia.
Qed.

Lemma lines_of_lines_no_LF (text : string) :
  forall cur, indexOf cur LF < 0 ->
    Forall (fun line => indexOf line LF = -1) (fst (lines_of cur text)).
Proof.
  induction text as [|a text IH]; intros cur H; simpl; [constructor|].
  destruct (Ascii.eqb a LF) eqn:Ea.
  - specialize (IH EmptyString). destruct (lines_of EmptyString text).
    simpl in *. constructor.
    + apply indexOf_absent_iff. now apply replace_trailing_CR_no_LF.
    + apply IH. lia.
  - apply IH. now apply indexOf_append_char.
Qed.

(** X5: after any chunks the buffer holds no line feed (no finished line
    is ever left waiting), and no line handed to the handler holds one. *)
Theorem read_loop_no_LF (chunks : list string) :
  indexOf (buffer (read_loop true (map chunk chunks) initial)) LF = -1 /\
  Forall (fun line => indexOf line LF = -1)
    (calls (read_loop true (map chunk chunks) initial)).
Proof.
  rewrite read_loop_received. unfold state_after. simpl. split.
  - apply indexOf_absent_iff. apply lines_of_rest_no_LF. simpl. lia.
  - apply lines_of_lines_no_LF. simpl. lia.
Qed.

Lemma lines_of_count (text : string) :
  forall cur, length (fst (lines_of cur text)) = count_char LF text.
Proof.
  induction text as [|a text IH]; intros cur; simpl; [reflexivity|].
  destruct (Ascii.eqb a LF).
  - specialize (IH EmptyString). destruct (lines_of EmptyString text).
    simpl in *. now rewrite IH.
  - apply IH.
Qed.

(** X6: the handler is called once per line feed received: as many calls
    as the received text has line feeds, whatever the chunks. *)
Theorem read_loop_call_count (chunks : list string) :
  length (calls (read_loop true (map chunk chunks) initial))
  = count_char LF (received_text chunks).
Proof.
  rewrite read_loop_received. unfold state_after. simpl.
  apply lines_of_count.
Qed.

Lemma append_absent (s t : string) (c : ascii) :
  indexOf (s +++ t) c < 0 <-> indexOf s c < 0 /\ indexOf t c < 0.
Proof.
  induction s as [|a s IH]; simpl.
  - split; [intros H; split; [lia | assumption] | intros [_ H]; assumption].
  - destruct (Ascii.eqb a c); [lia|].
    pose proof (indexOf_lower (s +++ t) c). pose proof (indexOf_lower s c).
    destruct (indexOf (s +++ t) c <? 0) eqn:E1;
      destruct (indexOf s c <? 0) eqn:E2;
      rewrite ?Z.ltb_lt, ?Z.ltb_ge in *; lia.
Qed.

Lemma replace_trailing_CR_no_CR (line : string) :
  indexOf line CR < 0 -> replace_trailing_CR line = line.
Proof.
  induction line as [|a line IH]; intros H; [reflexivity|].
  simpl in H. destruct (Ascii.eqb a CR) eqn:Ea; [lia|].
  destruct (indexOf line CR <? 0) eqn:E;
    [|pose proof (indexOf_lower line CR); apply Z.ltb_ge in E; lia].
  apply Z.ltb_lt in E. specialize (IH E).
  destruct line as [|b line]; simpl; [now rewrite Ea|].
  simpl in IH. now rewrite IH.
Qed.

Lemma lines_of_unsplit (text : string) :
  forall cur, indexOf cur CR < 0 -> indexOf text CR < 0 ->
    unsplit (fst (lines_of cur text)) (snd (lines_of cur text)) = cur +++ text.
Proof.
  induction text as [|a text IH]; intros cur Hcur Htext; simpl.
  - now rewrite append_nil_r.
  - change (String a text) with (String a EmptyString +++ text) in Htext.
    apply append_absent in Htext as [Ha Htext].
    destruct (Ascii.eqb a LF) eqn:Ea.
    + apply Ascii.eqb_eq in Ea. subst a.
      specialize (IH EmptyString). destruct (lines_of EmptyString text).
      simpl in *. rewrite IH by (assumption || lia).
      now rewrite replace_trailing_CR_no_CR.
    + rewrite IH; [now rewrite append_assoc | | assumption].
      apply append_absent. now split.
Qed.

(** X7: on a text without carriage returns nothing is lost and nothing is
    made up: the lines handed over, each closed by a line feed again,
    followed by the buffer, are the received text. *)
Theorem read_loop_unsplit (chunks : list string) :
  indexOf (received_text chunks) CR < 0 ->
  unsplit (calls (read_loop true (map chunk chunks) initial))
          (buffer (read_loop true (map chunk chunks) initial))
  = received_text chunks.
Proof.
  intros H. rewrite read_loop_received. unfold state_after. simpl.
  rewrite lines_of_unsplit; [reflexivity | simpl; lia | assumption].
Qed.

Lemma read_loop_unsplit_witness :
  unsplit ["x=1"; "y=2"]%string "z"
  = received_text ["x=1"; String LF "y="; "2" +++ String LF "z"]%string.
Proof.
  refine (eq_trans _
    (read_loop_unsplit ["x=1"; String LF "y="; "2" +++ String LF "z"]%string _));
    reflexivity.
Defined.

Lemma read_loop_done (registered : bool) (results later : list read_result) :
  forall st,
    Forall (fun r => done r = false) results ->
    read_loop registered (results ++ stream_end :: later) st
    = read_loop registered results st.
Proof.
  induction results as [|r results IH]; intros st H; simpl; [reflexivity|].
  inversion H as [|r' rs Hr Hrs]; subst. rewrite Hr. now apply IH.
Qed.

(** X8: the end of the stream delivers nothing.  The unfinished last line
    stays in the buffer when [done] arrives, so the calls are still one per
    line feed received, and whatever the reader would deliver after [done]
    is not looked at. *)
Theorem read_loop_stream_end (chunks : list string) (later : list read_result) :
  read_loop true (map chunk chunks ++ stream_end :: later) initial
  = read_loop true (map chunk chunks) initial /\
  length (calls (read_loop true (map chunk chunks ++ stream_end :: later)
                   initial))
  = count_char LF (received_text chunks).
Proof.
  assert (H : read_loop true (map chunk chunks ++ stream_end :: later) initial
              = read_loop true (map chunk chunks) initial).
  { apply read_loop_done. apply Forall_forall. intros r Hr.
    apply in_map_iff in Hr. destruct Hr as [c [<- _]]. reflexivity. }
  split; [exact H|]. rewrite H. apply read_loop_call_count.
Qed.

Lemma split_loop_unregistered (fuel : nat) :
  forall buf cs1 cs2,
    buffer (split_loop fuel false buf cs1) = buffer (split_loop fuel true buf cs2)
    /\ calls (split_loop fuel false buf cs1) = cs1.
Proof.
  induction fuel as [|fuel IH]; intros buf cs1 cs2; simpl; [now split|].
  destruct (indexOf buf LF >=? 0); [apply IH | now split].
Qed.

(** X9: while no handler is registered the lines are taken out of the
    buffer all the same and dropped: the buffer goes as with a handler,
    and no call is recorded. *)
Theorem read_loop_unregistered (results : list read_result) :
  forall st1 st2,
    buffer st1 = buffer st2 ->
    buffer (read_loop false results st1) = buffer (read_loop true results st2)
    /\ calls (read_loop false results st1) = calls st1.
Proof.
  induction results as [|r results IH]; intros st1 st2 Hbuf; simpl;
    [now split|].
  destruct (done r); [now split|].
  unfold on_read. destruct (value r) as [text|]; [|now apply IH].
  rewrite Hbuf.
  pose proof (split_loop_unregistered
                (S (String.length (buffer st2 +++ text)))
                (buffer st2 +++ text) (calls st1) (calls st2)) as [Hb Hc].
  destruct (IH _ _ Hb) as [IHb IHc].
  split; [exact IHb | now rewrite IHc].
Qed.

Lemma read_loop_unregistered_witness :
  buffer (read_loop false (map chunk [sample_text]) initial) = "c,"%string /\
  calls (read_loop false (map chunk [sample_text]) initial) = [].
Proof.
  destruct (read_loop_unregistered (map chunk [sample_text]) initial initial
              eq_refl) as [Hb Hc].
  split; [exact (eq_trans Hb eq_refl) | exact Hc].
Defined.

End HttpStreamMore.

(** * Properties of the connection manager *)

Module ConnectionProofs.
Import Connection.

(** Splits a manager into its fields and the flags the connect functions
    test. *)
Ltac open_manager m :=
  let t := fresh "t" in
  destruct m as [t ? ? [? ? [|] ?] [|] [[[|] ? [|] ? ?] ? ?]];
  cbn in *.

Ltac by_cases := repeat (cbn in *; try discriminate; try reflexivity;
  match goal with
  | |- context [isWebSocket ?a] => destruct (isWebSocket a) eqn:?
  | H : _ /\ _ |- _ => destruct H
  | H : ?x = _ |- _ => is_var x; subst x
  | |- _ /\ _ => split
  | |- (_ <= _)%nat => lia
  end).

(** Failed serial and HTTP connects put the manager back to idle, record
    the message and reject. *)
Lemma connectSerial_failure (m : Manager) (err : thrown) :
  let (m', c) := connectSerial (Failure err) m in
  connectionType m' = None /\ isConnecting m' = false /\
  error m' = Some (message_or "Failed to connect to serial port" err) /\
  c = Rejected err.
Proof. open_manager m; by_cases. Qed.

Lemma connectHttp_failure (address : string) (m : Manager) (err : thrown) :
  http_isSupported (http_state (httpHook m)) = true ->
  let (m', c) := connectHttp address (Failure err) m in
  connectionType m' = None /\ isConnecting m' = false /\
  error m' = Some (message_or "Failed to connect to HTTP stream" err) /\
  c = Rejected err.
Proof.
  intros H. unfold connectHttp, connectHttp_begin, http_connect_begin.
  open_manager m; by_cases.
Qed.

(** C6, the generator path: a failing [generator.start()] puts the manager
    back to idle and records the message, but the connect call resolves:
    the failure does not reach the caller. *)
Theorem connectGenerator_failure_resolves (m : Manager) (err : thrown) :
  connectionType (fst (connectGenerator (Failure err) m)) = None /\
  error (fst (connectGenerator (Failure err) m))
  = Some (message_or "Failed to start signal generator" err) /\
  snd (connectGenerator (Failure err) m) = Resolved /\
  snd (connectSerial (Failure err) m) = Rejected err.
Proof. open_manager m; by_cases. Qed.

(** C5 as stated fails: a serial connect issued while the HTTP backend is
    still connecting leaves that attempt alone, so two backends are
    connecting at once, and both end up connected. *)
Lemma connectSerial_while_http_connecting :
  let m := fst (connectHttp_begin "http://device.local/data" idle) in
  let m1 := fst (connect_begin ConnectSerial Success m) in
  let m2 := fst (connectHttp_settle Success (fst (connect ConnectSerial Success m))) in
  backend_active http m = true /\
  backend_active http m1 = true /\ backend_active serial m1 = true /\
  active_count m1 = 2%nat /\
  serial_isConnected (serialHook m2) = true /\
  http_isConnected (http_state (httpHook m2)) = true /\
  ~ (active_count m1 <= 1)%nat.
Proof. cbn. repeat split; lia. Qed.

(** C5, amended: in every state, a connect call tears down every other
    backend that is connected (or running) before it turns to its own
    backend, and they stay so when the call is over; after a successful
    connect the active kind is the one asked for.  A backend that is still
    connecting is not torn down: its connecting flag is as before, and an
    HTTP hook that is not connected is not touched.  So when no other
    backend is connecting at the call, no other backend is connected or
    connecting from then on, and at most one backend is active. *)
Theorem connect_tears_down_connected (r : request) (o : outcome) (m : Manager) :
  (forall k, k <> kind r ->
     backend_connected k (fst (connect_begin r o m)) = false /\
     backend_connected k (fst (connect r o m)) = false) /\
  (forall k, k <> kind r ->
     backend_connecting k (fst (connect_begin r o m)) = backend_connecting k m /\
     backend_connecting k (fst (connect r o m)) = backend_connecting k m) /\
  (kind r <> http ->
   http_isConnected (http_state (httpHook m)) = false ->
   httpHook (fst (connect r o m)) = httpHook m) /\
  (o = Success -> connectionType (fst (connect r o m)) = Some (kind r)) /\
  ((forall k, k <> kind r -> backend_connecting k m = false) ->
   (forall k, k <> kind r ->
      backend_active k (fst (connect_begin r o m)) = false /\
      backend_active k (fst (connect r o m)) = false) /\
   (active_count (fst (connect_begin r o m)) <= 1)%nat /\
   (active_count (fst (connect r o m)) <= 1)%nat).
Proof.
  split; [|split; [|split; [|split]]].
  - intros k Hk.
    destruct r as [|address|]; destruct k;
      try (exfalso; apply Hk; reflexivity);
      destruct o as [|err];
      unfold connect, connect_begin, connectHttp, connectHttp_begin,
        http_connect_begin;
      open_manager m; by_cases.
  - intros k Hk.
    destruct r as [|address|]; destruct k;
      try (exfalso; apply Hk; reflexivity);
      destruct o as [|err];
      unfold connect, connect_begin, connectHttp, connectHttp_begin,
        http_connect_begin;
      open_manager m; by_cases.
  - intros Hk Hidle.
    destruct r as [|address|]; [| exfalso; apply Hk; reflexivity |];
      destruct o as [|err]; open_manager m; by_cases.
  - intros ->.
    destruct r as [|address|];
      unfold connect, connectHttp, connectHttp_begin, http_connect_begin;
      open_manager m; by_cases.
  - intros Hothers.
    assert (Hs : kind r <> serial -> serial_isConnecting (serialHook m) = false)
      by (intros H; apply (Hothers serial); congruence).
    assert (Hh : kind r <> http
                 -> http_isConnecting (http_state (httpHook m)) = false)
      by (intros H; apply (Hothers http); congruence).
    clear Hothers.
    destruct r as [|address|]; destruct o as [|err]; cbn [kind] in Hs, Hh;
      try (specialize (Hs ltac:(discriminate)));
      try (specialize (Hh ltac:(discriminate)));
      unfold connect, connect_begin, connectHttp, connectHttp_begin,
        http_connect_begin, active_count;
      open_manager m; subst;
      (split;
       [intros k Hk; destruct k; try (exfalso; apply Hk; reflexivity);
        by_cases
       | by_cases]);
      repeat match goal with
             | |- context [?b || _] => is_var b; destruct b; cbn
             end;
      try lia; try reflexivity.
Qed.

Lemma connect_tears_down_connected_witness :
  let m := fst (connect (ConnectHttp "ws://device.local/socket") Success idle) in
  (forall k, k <> serial -> backend_connecting k m = false) /\
  backend_active http m = true /\
  backend_active http (fst (connect ConnectSerial Success m)) = false /\
  (active_count (fst (connect ConnectSerial Success m)) <= 1)%nat /\
  connectionType (fst (connect ConnectSerial Success m)) = Some serial.
Proof.
  assert (H : forall k, k <> serial ->
                backend_connecting k
                  (fst (connect (ConnectHttp "ws://device.local/socket")
                          Success idle)) = false)
    by (intros [| |] Hk; [exfalso; apply Hk |..]; reflexivity).
  pose proof (connect_tears_down_connected ConnectSerial Success
                (fst (connect (ConnectHttp "ws://device.local/socket")
                        Success idle)))
    as [_ [_ [_ [Htype Hexcl]]]].
  destruct (Hexcl H) as [Hothers [_ Hcount]].
  split; [exact H|]. split; [reflexivity|].
  split; [apply (Hothers http); discriminate|].
  split; [exact Hcount | apply Htype; reflexivity].
Defined.

(** C7: without a connected bidirectional backend [write] throws
    "Not connected": when neither the serial nor the HTTP backend is
    connected, when the manager is idle, when the generator is the active
    kind, while a connect call waits, and after a failed connect of any
    kind, whatever backend was active before.  On the HTTP one-shot stream
    it throws the "not supported" error. *)
Theorem write_needs_bidirectional_backend (m : Manager) (data : string) :
  (serial_isConnected (serialHook m) = false ->
   http_isConnected (http_state (httpHook m)) = false ->
   write m data = WriteThrows "Not connected") /\
  (connectionType m = None -> write m data = WriteThrows "Not connected") /\
  (connectionType m = Some generator ->
   write m data = WriteThrows "Not connected") /\
  (forall address,
     http_isSupported (http_state (httpHook m)) = true ->
     write (fst (connectHttp_begin address m)) data
     = WriteThrows "Not connected") /\
  (forall err,
     write (fst (connectSerial (Failure err) m)) data
     = WriteThrows "Not connected") /\
  (forall address err,
     http_isSupported (http_state (httpHook m)) = true ->
     write (fst (connectHttp address (Failure err) m)) data
     = WriteThrows "Not connected") /\
  (forall err,
     write (fst (connectGenerator (Failure err) m)) data
     = WriteThrows "Not connected") /\
  (connectionType m = Some http ->
   http_isConnected (http_state (httpHook m)) = true ->
   socketRef (httpHook m) = None ->
   write m data = WriteThrows "write on HTTP connection not supported") /\
  (forall address,
     isWebSocket address = false ->
     http_isSupported (http_state (httpHook m)) = true ->
     write (fst (connectHttp address Success m)) data
     = WriteThrows "write on HTTP connection not supported").
Proof.
  unfold write, is_type, http_write, connectHttp, connectHttp_begin,
    http_connect_begin.
  destruct m as [[[| |]|] ? ? [? ? [|] ?] [|] [[[|] ? [|] ? ?] ? [?|]]];
    cbn; repeat split; intros; by_cases;
    try match goal with H : isWebSocket _ = _ |- _ => rewrite H end;
    by_cases.
Qed.

Lemma write_needs_bidirectional_backend_witness :
  let m := fst (connect ConnectGenerator Success idle) in
  connectionType m = Some generator /\
  write m "x" = WriteThrows "Not connected" /\
  write (fst (connectHttp "http://device.local/data" Success m)) "x"
  = WriteThrows "write on HTTP connection not supported".
Proof.
  pose proof (write_needs_bidirectional_backend
                (fst (connect ConnectGenerator Success idle)) "x")
    as [_ [_ [Hgen [_ [_ [_ [_ [_ Hshot]]]]]]]].
  split; [reflexivity|].
  split; [apply Hgen; reflexivity | apply Hshot; reflexivity].
Defined.

(** A WebSocket attempt that hears nothing is rejected once the 5000 ms
    timer is due. *)
Lemma websocket_wait_times_out (address : string) (elapsed : Z) :
  isWebSocket address = true -> 5000 <= elapsed ->
  http_silent_wait address elapsed
  = Some (Failure (ErrorObject "Connection timeout")).
Proof.
  intros Hws Hdue. unfold http_silent_wait, http_timers, due_timer.
  rewrite Hws. cbn. apply Z.leb_le in Hdue. rewrite Hdue.
  unfold http_await. now rewrite Hws.
Qed.

(** C8, the HTTP one-shot path: a [fetch] that gets no response leaves
    [connect] pending however long the silence lasts; no timer is armed
    around it. *)
Theorem fetch_wait_never_times_out (elapsed : Z) :
  isWebSocket "http://device.local/data" = false /\
  http_silent_wait "http://device.local/data" elapsed = None /\
  snd (connectHttp_begin "http://device.local/data" idle) = None /\
  isConnecting (fst (connectHttp_begin "http://device.local/data" idle)) = true.
Proof. repeat split. Qed.

Example switch_http_to_serial :
  let m := fst (connect (ConnectHttp "ws://device.local/socket") Success idle) in
  write m "x" = SocketSend "x" /\
  write (fst (connect ConnectSerial Success m)) "x" = SerialWrite "x" /\
  write (fst (connect ConnectSerial (Failure OtherValue) m)) "x"
  = WriteThrows "Not connected".
Proof. repeat split. Qed.

End ConnectionProofs.

(** * Further properties of the connection manager and the HTTP hook *)

Module ConnectionMore.
Import Connection.
Import ConnectionProofs.

(** X10: a serial or HTTP connect whose backend fails rejects with the
    thrown value, and leaves the manager idle (no active kind, not
    connecting) with the message recorded: the error's own message, or the
    function's fallback for a thrown value that is not an [Error]. *)
Theorem connect_failure_rejects (r : request) (m : Manager) (err : thrown) :
  r <> ConnectGenerator -> attempt_possible r m ->
  snd (connect r (Failure err) m) = Rejected err /\
  connectionType (fst (connect r (Failure err) m)) = None /\
  isConnecting (fst (connect r (Failure err) m)) = false /\
  error (fst (connect r (Failure err) m))
  = Some (message_or (fallback_message r) err) /\
  backend_active (kind r) (fst (connect r (Failure err) m)) = false.
Proof.
  intros Hr Hpossible.
  destruct r as [|address|]; [| |contradiction];
    unfold connect, connectHttp, connectHttp_begin, http_connect_begin;
    open_manager m; by_cases.
Qed.

Lemma connect_failure_rejects_witness :
  snd (connect (ConnectHttp "http://device.local/data") (Failure OtherValue) idle)
  = Rejected OtherValue /\
  error (fst (connect (ConnectHttp "http://device.local/data")
                (Failure OtherValue) idle))
  = Some "Failed to connect to HTTP stream"%string.
Proof.
  destruct (connect_failure_rejects (ConnectHttp "http://device.local/data")
              idle OtherValue) as [Hc [_ [_ [He _]]]];
    [discriminate | reflexivity |].
  split; [exact Hc | exact He].
Defined.

(** X11: a WebSocket attempt that hears nothing is pending before 5000 ms
    and fails with "Connection timeout" from then on; through
    [connectHttp] the call is rejected with that error, the manager is
    idle and the message is recorded. *)
Theorem websocket_timeout_rejects (address : string) (elapsed : Z) (m : Manager) :
  isWebSocket address = true ->
  http_isSupported (http_state (httpHook m)) = true ->
  (elapsed < 5000 -> http_silent_wait address elapsed = None) /\
  (5000 <= elapsed ->
   exists o, http_silent_wait address elapsed = Some o /\
     snd (connectHttp address o m)
     = Rejected (ErrorObject "Connection timeout") /\
     connectionType (fst (connectHttp address o m)) = None /\
     error (fst (connectHttp address o m)) = Some "Connection timeout"%string /\
     state_isConnecting (state (fst (connectHttp address o m)))
     = serial_isConnecting (serialHook m) /\
     http_isConnected (http_state (httpHook (fst (connectHttp address o m))))
     = false /\
     http_isConnecting (http_state (httpHook (fst (connectHttp address o m))))
     = false /\
     isConnecting (fst (connectHttp address o m)) = false).
Proof.
  intros Hws Hsup. split.
  - intros Hearly. unfold http_silent_wait, http_timers, due_timer.
    rewrite Hws. cbn. apply Z.leb_gt in Hearly. now rewrite Hearly.
  - intros Hdue. exists (Failure (ErrorObject "Connection timeout")).
    split; [now apply websocket_wait_times_out|].
    unfold connectHttp, connectHttp_begin, http_connect_begin.
    open_manager m; by_cases; apply orb_false_r.
Qed.

Lemma websocket_timeout_rejects_witness :
  http_silent_wait "ws://device.local/socket" 4999 = None /\
  exists o,
    http_silent_wait "ws://device.local/socket" 5000 = Some o /\
    snd (connectHttp "ws://device.local/socket" o idle)
    = Rejected (ErrorObject "Connection timeout").
Proof.
  split.
  - apply (proj1 (websocket_timeout_rejects "ws://device.local/socket" 4999
                    idle eq_refl eq_refl)). lia.
  - destruct (proj2 (websocket_timeout_rejects "ws://device.local/socket" 5000
                       idle eq_refl eq_refl)) as [o [Ho [Hc _]]]; [lia|].
    exists o. split; [exact Ho | exact Hc].
Defined.

(** X12: [disconnect] never rejects and reaches idle from every state: no
    active kind, no error of its own, no backend connected, [write]
    throws, and a second [disconnect] changes nothing.  It does not cancel
    an attempt that is still waiting: the connecting flags stay, and an
    HTTP hook that is not connected is not touched at all. *)
Theorem disconnect_reaches_idle (m : Manager) :
  snd (disconnect m) = Resolved /\
  connectionType (fst (disconnect m)) = None /\
  error (fst (disconnect m)) = None /\
  state_isConnected (state (fst (disconnect m))) = false /\
  (forall data, write (fst (disconnect m)) data = WriteThrows "Not connected") /\
  disconnect (fst (disconnect m)) = disconnect m /\
  state_isConnecting (state (fst (disconnect m)))
  = state_isConnecting (state m) /\
  (http_isConnected (http_state (httpHook m)) = false ->
   httpHook (fst (disconnect m)) = httpHook m).
Proof.
  unfold write, is_type. open_manager m; by_cases.
  all: intros; by_cases.
Qed.

Lemma disconnect_reaches_idle_witness :
  let m := fst (connectHttp_begin "ws://device.local/socket" idle) in
  http_isConnecting (http_state (httpHook m)) = true /\
  httpHook (fst (disconnect m)) = httpHook m /\
  state_isConnecting (state (fst (disconnect m))) = true.
Proof.
  pose proof (disconnect_reaches_idle
                (fst (connectHttp_begin "ws://device.local/socket" idle)))
    as [_ [_ [_ [_ [_ [_ [Hflag Hhook]]]]]]].
  split; [reflexivity|]. split; [apply Hhook; reflexivity|].
  exact (eq_trans Hflag eq_refl).
Defined.

(** X13: [write] reaches a backend only if that backend is the active kind
    and connected, and then passes the data on unchanged: the serial port
    for the kind serial, the socket for the kind http. *)
Theorem write_reaches_active_backend (m : Manager) (data sent : string) :
  (write m data = SerialWrite sent ->
   sent = data /\ connectionType m = Some serial /\
   serial_isConnected (serialHook m) = true) /\
  (write m data = SocketSend sent ->
   sent = data /\ connectionType m = Some http /\
   http_isConnected (http_state (httpHook m)) = true /\
   socketRef (httpHook m) <> None).
Proof.
  unfold write, is_type, http_write.
  destruct m as [[[| |]|] ? ? [? ? [|] ?] ? [[? ? [|] ? ?] ? [?|]]];
    cbn; split; intros H; try discriminate;
    injection H as ->; repeat split; discriminate.
Qed.

Lemma write_reaches_active_backend_witness :
  let m := fst (connect ConnectSerial Success idle) in
  write m "x" = SerialWrite "x" /\ connectionType m = Some serial.
Proof.
  split; [reflexivity|].
  apply (proj1 (write_reaches_active_backend
                  (fst (connect ConnectSerial Success idle)) "x" "x")).
  reflexivity.
Defined.

(** X14: with nothing in flight, a connect call whose backend succeeds
    resolves and leaves the state record saying so: the type is the kind
    asked for, connected, not connecting, no error of the manager's own,
    and exactly one backend active. *)
Theorem connect_success_state (r : request) (m : Manager) :
  nothing_in_flight m -> isConnecting m = false -> attempt_possible r m ->
  snd (connect r Success m) = Resolved /\
  state_type (state (fst (connect r Success m))) = Some (kind r) /\
  state_isConnected (state (fst (connect r Success m))) = true /\
  state_isConnecting (state (fst (connect r Success m))) = false /\
  error (fst (connect r Success m)) = None /\
  active_count (fst (connect r Success m)) = 1%nat.
Proof.
  intros [Hs Hh] Hc Hpossible.
  destruct r as [|address|];
    unfold connect, connectHttp, connectHttp_begin, http_connect_begin,
      active_count;
    open_manager m; subst; by_cases.
Qed.

Lemma connect_success_state_witness :
  let m := fst (connect ConnectGenerator Success idle) in
  nothing_in_flight m /\
  state_type (state (fst (connect ConnectSerial Success m))) = Some serial /\
  active_count (fst (connect ConnectSerial Success m)) = 1%nat.
Proof.
  assert (H : nothing_in_flight (fst (connect ConnectGenerator Success idle)))
    by (split; reflexivity).
  destruct (connect_success_state ConnectSerial _ H eq_refl I)
    as [_ [Ht [_ [_ [_ Ha]]]]].
  split; [exact H|]. split; [exact Ht | exact Ha].
Defined.



(** X16: where streaming fetch is not supported, [connectHttp] tears the
    other backends down, makes no attempt (the HTTP hook only records the
    "not supported" message), and yet resolves with http as the active
    kind: the caller sees a successful connect to a backend that is not
    connected. *)
Theorem connectHttp_unsupported (address : string) (o : outcome) (m : Manager) :
  http_isSupported (http_state (httpHook m)) = false ->
  snd (connectHttp address o m) = Resolved /\
  connectionType (fst (connectHttp address o m)) = Some http /\
  error (fst (connectHttp address o m)) = None /\
  http_error (http_state (httpHook (fst (connectHttp address o m))))
  = Some "Streaming fetch not supported in this browser."%string /\
  http_isConnected (http_state (httpHook (fst (connectHttp address o m))))
  = http_isConnected (http_state (httpHook m)) /\
  socketRef (httpHook (fst (connectHttp address o m))) = socketRef (httpHook m) /\
  serial_isConnected (serialHook (fst (connectHttp address o m))) = false /\
  generator_isRunning (fst (connectHttp address o m)) = false.
Proof.
  intros Hsup. unfold connectHttp, connectHttp_begin, http_connect_begin.
  open_manager m; by_cases.
Qed.

Lemma connectHttp_unsupported_witness :
  let m := with_http
             (set_http_state (fun s =>
                {| http_isSupported := false;
                   http_isConnecting := http_isConnecting s;
                   http_isConnected := http_isConnected s;
                   http_error := http_error s;
                   http_address := http_address s |}) (httpHook idle)) idle in
  snd (connectHttp "http://device.local/data" Success m) = Resolved /\
  state_type (state (fst (connectHttp "http://device.local/data" Success m)))
  = Some http /\
  state_isConnected (state (fst (connectHttp "http://device.local/data" Success m)))
  = false.
Proof.
  cbv zeta.
  match goal with |- snd (connectHttp ?a ?o ?m) = _ /\ _ =>
    destruct (connectHttp_unsupported a o m eq_refl) as [Hc [Ht _]]
  end.
  split; [exact Hc|]. split; [exact Ht | reflexivity].
Defined.

End ConnectionMore.

(** * Properties of the chart export *)

Module ChartExportProofs.
Import ChartExport.
Import CobsProofs.

Section WithNumbers.
Context {N : Numbers}.

Lemma at_index_middle {A : Type} (before after : list A) (x : A) :
  at_index (before ++ x :: after) (len before) = Some x.
Proof.
  unfold at_index, len.
  destruct (Z.of_nat (length before) <? 0) eqn:E; [apply Z.ltb_lt in E; lia|].
  rewrite Nat2Z.id, nth_error_app2 by lia.
  now rewrite Nat.sub_diag.
Qed.

(** The series loop adds one cell per buffer, in order. *)
Lemma series_loop_cells (store : RingStore) (ringIndex : Z) :
  forall (rest before : list (list Num)) (row : list string),
    buffers store = before ++ rest ->
    series_loop (length rest) (len before) store ringIndex row
    = Some (row ++ map (fun buffer => value_field (at_index buffer ringIndex))
                       rest).
Proof.
  induction rest as [|buffer rest IH]; intros before row Hsplit; simpl.
  - now rewrite app_nil_r.
  - rewrite Hsplit, at_index_middle.
    replace (len before + 1) with (len (before ++ [buffer]))
      by (unfold len; rewrite length_app; simpl; lia).
    rewrite IH by (rewrite Hsplit, <- app_assoc; reflexivity).
    now rewrite <- app_assoc.
Qed.

Lemma and_then_and_then {A B C : Type} (r : result A) (f : A -> result B)
  (g : B -> result C) :
  and_then (and_then r f) g = and_then r (fun a => and_then (f a) g).
Proof. now destruct r. Qed.

(** The rows loop makes the rows of the logical indices it passes, one
    after the other, and stops at the first that throws. *)
Lemma rows_loop_in_turn (store : RingStore) (options : ChartExportOptions) :
  0 < getCapacity store ->
  length (buffers store) = length (getSeries store) ->
  forall (count : nat) (i : Z) (csvLines : list string),
    0 <= i ->
    rows_loop count i store options
      (base_time options (firstTimestamp store)) csvLines
    = and_then
        (rows_in_turn (store_timestamp_step store options) (store_cells store)
           (map (fun k => i + Z.of_nat k) (seq 0 count)))
        (fun rows => Returns (csvLines ++ rows)).
Proof.
  intros Hcap Hbuf.
  induction count as [|count IH]; intros i csvLines Hi.
  - simpl. now rewrite app_nil_r.
  - cbn [rows_loop seq map rows_in_turn]. rewrite <- Hbuf.
    rewrite Z.rem_mod_nonneg by lia.
    cbn [Z.of_nat]. rewrite Z.add_0_r.
    unfold store_timestamp_step at 1.
    destruct (push_timestamp options (base_time options (firstTimestamp store))
                (at_index (times store) (i mod getCapacity store)) [])
      as [row| | |]; cbn [and_then]; try reflexivity.
    rewrite (series_loop_cells store _ (buffers store) []) by reflexivity.
    rewrite IH by lia.
    rewrite <- seq_shift, !map_map.
    replace (map (fun k => i + 1 + Z.of_nat k) (seq 0 count))
      with (map (fun k => i + Z.of_nat (S k)) (seq 0 count))
      by (apply map_ext; intros k; lia).
    destruct (rows_in_turn _ _ _) as [rows| | |]; cbn [and_then];
      try reflexivity.
    unfold store_cells. now rewrite <- app_assoc.
Qed.

(** A time in the range of [Date] is printed, whatever the format. *)
Lemma timestamp_field_text (options : ChartExportOptions)
  (baseTime : option Num) (t : option Num) :
  (timeFormat_or_iso options = iso -> in_Date_range t) ->
  timestamp_field options baseTime t
  = Returns (timestamp_text options baseTime t).
Proof.
  intros Hrange. unfold timestamp_text, timestamp_field, formatChartTimestamp.
  destruct t as [v|]; [|reflexivity].
  destruct (isFinite v) eqn:Hfin; [|reflexivity].
  destruct (timeFormat_or_iso options); try reflexivity.
  destruct (toISOString v) eqn:Hiso; [reflexivity|].
  exfalso. now apply (Hrange eq_refl Hfin).
Qed.

Lemma push_timestamp_text (options : ChartExportOptions)
  (baseTime : option Num) (t : option Num) :
  (prints_ISO options -> in_Date_range t) ->
  push_timestamp options baseTime t []
  = Returns (if is_true (includeTimestamps options)
             then [timestamp_text options baseTime t] else []).
Proof.
  intros Hrange. unfold push_timestamp.
  destruct (is_true (includeTimestamps options)) eqn:Hincl; [|reflexivity].
  rewrite timestamp_field_text; [reflexivity|].
  intros Hiso. apply Hrange. now split.
Qed.

(** Rows that all print are all made. *)
Lemma rows_in_turn_all (step : Z -> result (list string))
  (first cells : Z -> list string) (indices : list Z) :
  (forall i, In i indices -> step i = Returns (first i)) ->
  rows_in_turn step cells indices
  = Returns (map (fun i => String.concat "," (first i ++ cells i)) indices).
Proof.
  induction indices as [|i indices IH]; intros H; [reflexivity|].
  cbn [rows_in_turn map]. rewrite (H i) by now left.
  cbn [and_then]. rewrite IH by (intros j Hj; apply H; now right).
  reflexivity.
Qed.

(** The text of the full-range export, in terms of the rows in turn. *)
Lemma exportAllChartDataAsCsv_in_turn (store : RingStore)
  (options : ChartExportOptions) :
  getSeries store <> [] ->
  0 < Z.min (writeIndex store) (getCapacity store) ->
  length (buffers store) = length (getSeries store) ->
  exportAllChartDataAsCsv store options
  = and_then
      (rows_in_turn (store_timestamp_step store options) (store_cells store)
         (valid_indices store))
      (fun rows =>
         Returns (String.concat newline (header_row store options :: rows))).
Proof.
  intros Hseries Hvalid Hbuf. unfold exportAllChartDataAsCsv.
  destruct (len (getSeries store) =? 0) eqn:E;
    [apply len_zero_nil in E; contradiction|].
  destruct (Z.min (writeIndex store) (getCapacity store) =? 0) eqn:E0;
    [apply Z.eqb_eq in E0; lia|].
  assert (Hidx :
    map (fun k =>
           (if writeIndex store >? getCapacity store
            then writeIndex store - getCapacity store else 0) + Z.of_nat k)
      (seq 0 (Z.to_nat
                (writeIndex store - 1
                 - (if writeIndex store >? getCapacity store
                    then writeIndex store - getCapacity store else 0) + 1)))
    = valid_indices store).
  { unfold valid_indices.
    destruct (writeIndex store >? getCapacity store) eqn:Eg;
      rewrite Z.gtb_ltb in Eg;
      [apply Z.ltb_lt in Eg | apply Z.ltb_ge in Eg];
      match goal with
      | |- map _ (seq 0 ?c1) = map _ (seq 0 ?c2) =>
          replace c1 with c2 by lia; apply map_ext; intros k; lia
      end. }
  rewrite rows_loop_in_turn;
    [| lia | assumption
     | destruct (writeIndex store >? getCapacity store) eqn:Eg;
       [rewrite Z.gtb_ltb in Eg; apply Z.ltb_lt in Eg; lia | lia]].
  rewrite Hidx, and_then_and_then. reflexivity.
Qed.


(** C10: without series or without samples the CSV exports return
    "No data available" (the full-range one the header row alone when
    there are series but no samples) and do not throw, the WAV export
    throws "No data available", and [exportChartData] throws for the WAV
    format with the visible scope: whenever it downloads WAV content, the
    scope is the full store and the content is the full store's. *)
Theorem exports_without_data :
  (forall snapshot options,
     vp_series snapshot = [] \/ getTimes snapshot = [] ->
     exportVisibleChartDataAsCsv snapshot options
     = Returns "No data available"%string) /\
  (forall store options,
     getSeries store = [] ->
     exportAllChartDataAsCsv store options = Returns "No data available"%string) /\
  (forall store options,
     getSeries store <> [] ->
     Z.min (writeIndex store) (getCapacity store) = 0 ->
     exportAllChartDataAsCsv store options = Returns (header_row store options)) /\
  (forall store,
     getSeries store = [] \/
     Z.min (writeIndex store) (getCapacity store) = 0 ->
     exportAllChartDataAsWav store = Throws "No data available") /\
  (forall timestamp snapshot store options,
     format options = wav -> scope options = visible ->
     exportChartData timestamp snapshot store options
     = ExportThrows "`visible` scope is not supported for WAV export") /\
  (forall timestamp snapshot store options bytes filename mime,
     exportChartData timestamp snapshot store options
     = Downloads (WavContent bytes) filename mime ->
     scope options = all /\
     exportAllChartDataAsWav store = Returns bytes).
Proof.
  split; [|split; [|split; [|split; [|split]]]].
  - intros snapshot options [H|H]; unfold exportVisibleChartDataAsCsv;
      rewrite H; cbn; [reflexivity | now rewrite orb_true_r].
  - intros store options H. unfold exportAllChartDataAsCsv. now rewrite H.
  - intros store options Hs H0. unfold exportAllChartDataAsCsv.
    destruct (len (getSeries store) =? 0) eqn:E;
      [apply len_zero_nil in E; contradiction|].
    rewrite H0. reflexivity.
  - intros store [H|H]; unfold exportAllChartDataAsWav.
    + now rewrite H.
    + rewrite H. now destruct (len (getSeries store) =? 0).
  - intros timestamp snapshot store options Hf Hs.
    unfold exportChartData. now rewrite Hf, Hs.
  - intros timestamp snapshot store options bytes filename mime H.
    unfold exportChartData in H.
    destruct (format options), (scope options);
      try discriminate;
      match type of H with
      | context [match ?call with _ => _ end] => destruct call
      end;
      try discriminate.
    injection H as -> _ _. now split.
Qed.

End WithNumbers.


Lemma exports_without_data_witness :
  exportAllChartDataAsCsv empty_store (csv_options all) = Returns "Timestamp,a"%string /\
  exportAllChartDataAsWav empty_store = Throws "No data available" /\
  exportVisibleChartDataAsCsv empty_snapshot (csv_options visible)
  = Returns "No data available"%string /\
  exportChartData "2026-01-01T00-00-00" empty_snapshot sample_store
    (wav_options visible)
  = ExportThrows "`visible` scope is not supported for WAV export".
Proof.
  destruct (@exports_without_data IntNumbers)
    as [Hvis [_ [Hhead [Hwav [Hthrow _]]]]].
  split; [|split; [|split]].
  - refine (eq_trans (Hhead empty_store (csv_options all) _ _) _);
      [discriminate | reflexivity | reflexivity].
  - apply Hwav. right. reflexivity.
  - apply Hvis. left. reflexivity.
  - apply Hthrow; reflexivity.
Defined.

Example export_far_time :
  exportAllChartDataAsCsv far_store (iso_options all) = RangeError /\
  exportAllChartDataAsCsv far_store (csv_options all)
  = Returns (String.concat newline ["Timestamp,a"; "10000000000000000,1"]%string).
Proof. split; vm_compute; reflexivity. Qed.

Example export_wav_sample :
  exportAllChartDataAsWav sample_store
  = Returns ([82; 73; 70; 70; 52; 0; 0; 0; 87; 65; 86; 69;
              102; 109; 116; 32; 16; 0; 0; 0; 3; 0; 2; 0;
              64; 31; 0; 0; 0; 250; 0; 0; 8; 0; 32; 0;
              100; 97; 116; 97; 16; 0; 0; 0]
             ++ [2; 0; 0; 0; 5; 0; 0; 0; 3; 0; 0; 0; 0; 0; 0; 0]).
Proof. vm_compute. reflexivity. Qed.

End ChartExportProofs.

(** * Further properties of the chart export *)

Module ChartExportMore.
Import ChartExport.
Import CobsProofs.
Import ChartExportProofs.

Section WithNumbers.
Context {N : Numbers}.

Lemma at_index_guarded {A : Type} (array : list A) (i : Z) :
  (if i <? len array then at_index array i else None) = at_index array i.
Proof.
  destruct (i <? len array) eqn:E; [reflexivity|].
  apply Z.ltb_ge in E. unfold at_index, len in *.
  destruct (i <? 0); [reflexivity|].
  symmetry. apply nth_error_None. lia.
Qed.

Lemma visible_series_loop_cells (snapshot : ViewPortData) (i : Z) :
  forall (count : nat) (first : nat) (row : list string),
    visible_series_loop count (Z.of_nat first) snapshot i row
    = row ++ map (fun s => value_field
                             (at_index (getSeriesData snapshot (Z.of_nat s)) i))
                 (seq first count).
Proof.
  induction count as [|count IH]; intros first row; simpl.
  - now rewrite app_nil_r.
  - rewrite at_index_guarded.
    replace (Z.of_nat first + 1) with (Z.of_nat (S first)) by lia.
    rewrite IH. now rewrite <- app_assoc.
Qed.

(** The rows loop of the visible export makes the rows of the indices it
    passes, one after the other, and stops at the first that throws. *)
Lemma visible_rows_loop_in_turn (snapshot : ViewPortData)
  (options : ChartExportOptions) :
  forall (count : nat) (first : nat) (csvLines : list string),
    visible_rows_loop count (Z.of_nat first) snapshot options
      (base_time options (vp_firstTimestamp snapshot)) csvLines
    = and_then
        (rows_in_turn (snapshot_timestamp_step snapshot options)
           (snapshot_cells snapshot) (map Z.of_nat (seq first count)))
        (fun rows => Returns (csvLines ++ rows)).
Proof.
  induction count as [|count IH]; intros first csvLines.
  - simpl. now rewrite app_nil_r.
  - cbn [visible_rows_loop seq map rows_in_turn].
    unfold snapshot_timestamp_step at 1.
    destruct (push_timestamp options
                (base_time options (vp_firstTimestamp snapshot))
                (at_index (getTimes snapshot) (Z.of_nat first)) [])
      as [row| | |]; cbn [and_then]; try reflexivity.
    rewrite (visible_series_loop_cells snapshot _ _ 0%nat).
    replace (Z.of_nat first + 1) with (Z.of_nat (S first)) by lia.
    rewrite IH.
    destruct (rows_in_turn _ _ _) as [rows| | |]; cbn [and_then];
      try reflexivity.
    unfold snapshot_cells. now rewrite <- app_assoc.
Qed.

(** The text of the visible export, in terms of the rows in turn. *)
Lemma exportVisibleChartDataAsCsv_in_turn (snapshot : ViewPortData)
  (options : ChartExportOptions) :
  vp_series snapshot <> [] -> getTimes snapshot <> [] ->
  exportVisibleChartDataAsCsv snapshot options
  = and_then
      (rows_in_turn (snapshot_timestamp_step snapshot options)
         (snapshot_cells snapshot) (row_indices (length (getTimes snapshot))))
      (fun rows =>
         Returns (String.concat newline
                    (String.concat "," (headers options (vp_series snapshot))
                     :: rows))).
Proof.
  intros Hs Ht. unfold exportVisibleChartDataAsCsv.
  destruct (len (vp_series snapshot) =? 0) eqn:E1;
    [apply len_zero_nil in E1; contradiction|].
  destruct (len (getTimes snapshot) =? 0) eqn:E2;
    [apply len_zero_nil in E2; contradiction|].
  cbn [orb]. change 0 with (Z.of_nat 0).
  rewrite visible_rows_loop_in_turn, and_then_and_then. reflexivity.
Qed.

(** X17: for a snapshot with series and times (and, where ISO times are
    printed, times that [Date] represents), the visible CSV is the header
    row followed by one row per time, in order; each row is the formatted
    time (when asked for) and the sample of every series at that index,
    empty where it is not finite or the series is shorter. *)
Theorem exportVisibleChartDataAsCsv_rows (snapshot : ViewPortData)
  (options : ChartExportOptions) :
  vp_series snapshot <> [] -> getTimes snapshot <> [] ->
  snapshot_in_Date_range snapshot options ->
  exportVisibleChartDataAsCsv snapshot options
  = Returns
      (String.concat newline
         (String.concat "," (headers options (vp_series snapshot))
          :: map (visible_row snapshot options)
                 (row_indices (length (getTimes snapshot))))).
Proof.
  intros Hs Ht Hrange.
  rewrite exportVisibleChartDataAsCsv_in_turn by assumption.
  rewrite (rows_in_turn_all _
             (fun i => if is_true (includeTimestamps options)
                       then [timestamp_text options
                               (base_time options (vp_firstTimestamp snapshot))
                               (at_index (getTimes snapshot) i)]
                       else [])).
  - reflexivity.
  - intros i Hi. unfold snapshot_timestamp_step.
    apply push_timestamp_text. intros Hiso.
    specialize (Hrange Hiso). rewrite Forall_forall in Hrange.
    unfold at_index. destruct (i <? 0); [exact I|].
    destruct (nth_error (getTimes snapshot) (Z.to_nat i)) as [t|] eqn:Hnth;
      [|exact I].
    apply Hrange. eapply nth_error_In, Hnth.
Qed.

Lemma map_by_position {A B : Type} (f : A -> B) (g : nat -> B) (xs : list A) :
  (forall s x, nth_error xs s = Some x -> g s = f x) ->
  map g (seq 0 (length xs)) = map f xs.
Proof.
  revert g. induction xs as [|x xs IH]; intros g H; [reflexivity|].
  cbn [length seq map]. f_equal.
  - apply (H 0%nat). reflexivity.
  - rewrite <- seq_shift, map_map. apply IH.
    intros s y Hy. apply (H (S s)). exact Hy.
Qed.

(** Rows that go alike come out alike. *)
Lemma rows_in_turn_alike {A : Type} (step1 step2 : Z -> result (list string))
  (cells1 cells2 : Z -> list string) (f1 f2 : A -> Z) (xs : list A) :
  (forall x, In x xs ->
     step1 (f1 x) = step2 (f2 x) /\ cells1 (f1 x) = cells2 (f2 x)) ->
  rows_in_turn step1 cells1 (map f1 xs) = rows_in_turn step2 cells2 (map f2 xs).
Proof.
  induction xs as [|x xs IH]; intros H; [reflexivity|].
  cbn [map rows_in_turn].
  destruct (H x (or_introl eq_refl)) as [Hstep Hcells].
  rewrite Hstep, Hcells, IH by (intros y Hy; apply H; now right).
  reflexivity.
Qed.

(** X18: the two CSV exports agree.  For a snapshot that shows the whole
    valid range of the store, the full-range export ends as the visible
    export does: with the same text, or with the same RangeError at the
    first time that [Date] does not represent. *)
Theorem exports_agree (snapshot : ViewPortData) (store : RingStore)
  (options : ChartExportOptions) :
  getSeries store <> [] ->
  0 < Z.min (writeIndex store) (getCapacity store) ->
  length (buffers store) = length (getSeries store) ->
  shows_all snapshot store ->
  exportAllChartDataAsCsv store options
  = exportVisibleChartDataAsCsv snapshot options.
Proof.
  intros Hseries Hvalid Hbuf [Hs [Hf [Hn [Ht Hd]]]].
  rewrite exportAllChartDataAsCsv_in_turn by assumption.
  rewrite exportVisibleChartDataAsCsv_in_turn.
  - unfold header_row, headers. rewrite Hs.
    unfold valid_indices, row_indices. rewrite <- Hn.
    rewrite (rows_in_turn_alike
               (store_timestamp_step store options)
               (snapshot_timestamp_step snapshot options)
               (store_cells store) (snapshot_cells snapshot)
               _ Z.of_nat); [reflexivity|].
    intros k Hk. apply in_seq in Hk. split.
    + unfold store_timestamp_step, snapshot_timestamp_step.
      rewrite Hf, Ht by lia. reflexivity.
    + unfold store_cells, snapshot_cells. rewrite Hs, <- Hbuf.
      symmetry. apply map_by_position. intros s buffer Hbuffer.
      rewrite Hd; [| rewrite <- Hbuf; apply nth_error_Some; congruence | lia].
      unfold store_cell. now rewrite Hbuffer.
  - rewrite Hs. exact Hseries.
  - intros Hnil. rewrite Hnil in Hn. simpl in Hn. lia.
Qed.

(** X21: the full-range CSV throws where the date cannot be printed.
    With timestamps in the ISO format and series, samples and one buffer
    per series, a finite time beyond the range of [Date] at the oldest
    valid index makes the export end in that RangeError, with no text. *)
Theorem exportAllChartDataAsCsv_RangeError (store : RingStore)
  (options : ChartExportOptions) (t : Num) :
  getSeries store <> [] ->
  0 < Z.min (writeIndex store) (getCapacity store) ->
  length (buffers store) = length (getSeries store) ->
  prints_ISO options ->
  at_index (times store)
    (Z.max 0 (writeIndex store - getCapacity store) mod getCapacity store)
  = Some t ->
  isFinite t = true -> toISOString t = None ->
  exportAllChartDataAsCsv store options = RangeError.
Proof.
  intros Hseries Hvalid Hbuf [Hincl Hiso] Htime Hfin Hfar.
  rewrite exportAllChartDataAsCsv_in_turn by assumption.
  unfold valid_indices.
  destruct (Z.to_nat (Z.min (writeIndex store) (getCapacity store)))
    as [|count] eqn:Hcount; [lia|].
  cbn [seq map rows_in_turn Z.of_nat]. rewrite Z.add_0_r.
  unfold store_timestamp_step, push_timestamp.
  rewrite Hincl, Htime. unfold timestamp_field, formatChartTimestamp.
  now rewrite Hfin, Hiso, Hfar.
Qed.

Lemma channel_loop_samples (store : RingStore) (ringIndex : Z) :
  forall (rest before : list (list Num)) (interleaved : list Num),
    buffers store = before ++ rest ->
    channel_loop (length rest) (len before) store ringIndex interleaved
    = Some (interleaved
            ++ map (fun buffer => sample_or_zero (at_index buffer ringIndex))
                   rest).
Proof.
  induction rest as [|buffer rest IH]; intros before interleaved Hsplit; simpl.
  - now rewrite app_nil_r.
  - rewrite Hsplit, at_index_middle.
    replace (len before + 1) with (len (before ++ [buffer]))
      by (unfold len; rewrite length_app; simpl; lia).
    rewrite IH by (rewrite Hsplit, <- app_assoc; reflexivity).
    now rewrite <- app_assoc.
Qed.

Lemma frames_loop_frames (store : RingStore) :
  0 < getCapacity store ->
  length (buffers store) = length (getSeries store) ->
  forall (count : nat) (i : Z) (interleaved : list Num),
    0 <= i ->
    frames_loop count i store interleaved
    = Some (interleaved
            ++ flat_map (wav_frame store)
                 (map (fun k => i + Z.of_nat k) (seq 0 count))).
Proof.
  intros Hcap Hbuf.
  induction count as [|count IH]; intros i interleaved Hi.
  - simpl. now rewrite app_nil_r.
  - cbn [frames_loop]. rewrite <- Hbuf.
    rewrite Z.rem_mod_nonneg by lia.
    rewrite (channel_loop_samples store _ (buffers store) []) by reflexivity.
    rewrite IH by lia.
    rewrite <- app_assoc. do 2 f_equal.
    cbn [seq map flat_map]. rewrite <- seq_shift, !map_map.
    cbn [Z.of_nat]. rewrite Z.add_0_r. unfold wav_frame at 2. f_equal.
    f_equal. apply map_ext. intros k. lia.
Qed.

Lemma len_flat_map_const {A B : Type} (f : A -> list B) (n : Z) (xs : list A) :
  (forall x, len (f x) = n) -> len (flat_map f xs) = n * len xs.
Proof.
  intros H. induction xs as [|x xs IH]; simpl.
  - unfold len. simpl. lia.
  - rewrite len_app, IH, H, len_cons. lia.
Qed.

(** X19: for a store with series and samples, the WAV file is a 44-byte
    header that starts with "RIFF" followed by the samples of the valid
    range, frame by frame from the oldest, one sample per series in series
    order, a sample that is not finite written as zero.  With four bytes
    per sample the file has 44 + 4 * channels * frames bytes. *)
Theorem exportAllChartDataAsWav_layout (store : RingStore) :
  getSeries store <> [] ->
  0 < Z.min (writeIndex store) (getCapacity store) ->
  length (buffers store) = length (getSeries store) ->
  exists header,
    exportAllChartDataAsWav store
    = Returns (header ++ flat_map float32LE (wav_samples store)) /\
    len header = 44 /\
    firstn 4 header = char_codes "RIFF" /\
    len (wav_samples store)
    = len (getSeries store)
      * Z.min (writeIndex store) (getCapacity store) /\
    ((forall x, len (float32LE x) = 4) ->
     len (header ++ flat_map float32LE (wav_samples store))
     = 44 + 4 * (len (getSeries store)
                 * Z.min (writeIndex store) (getCapacity store))).
Proof.
  intros Hseries Hvalid Hbuf.
  assert (Hsamples : len (wav_samples store)
                     = len (getSeries store)
                       * Z.min (writeIndex store) (getCapacity store)).
  { unfold wav_samples.
    rewrite (len_flat_map_const _ (len (getSeries store))).
    - unfold valid_indices, len. rewrite length_map, length_seq. lia.
    - intros i. unfold wav_frame, len. now rewrite length_map, Hbuf. }
  unfold exportAllChartDataAsWav.
  destruct (len (getSeries store) =? 0) eqn:E;
    [apply len_zero_nil in E; contradiction|].
  destruct (Z.min (writeIndex store) (getCapacity store) =? 0) eqn:E0;
    [apply Z.eqb_eq in E0; lia|].
  assert (Hframes :
    frames_loop
      (Z.to_nat (writeIndex store - 1
                 - (if writeIndex store >? getCapacity store
                    then writeIndex store - getCapacity store else 0) + 1))
      (if writeIndex store >? getCapacity store
       then writeIndex store - getCapacity store else 0) store []
    = Some (wav_samples store)).
  { destruct (writeIndex store >? getCapacity store) eqn:Eg;
      rewrite Z.gtb_ltb in Eg;
      [apply Z.ltb_lt in Eg | apply Z.ltb_ge in Eg];
      rewrite frames_loop_frames by (assumption || lia);
      cbn [app]; unfold wav_samples, valid_indices; do 2 f_equal;
      match goal with
      | |- map _ (seq 0 ?c1) = map _ (seq 0 ?c2) =>
          replace c1 with c2 by lia; apply map_ext; intros k; lia
      end. }
  rewrite Hframes.
  eexists. split; [|split; [|split; [|split]]].
  - rewrite !app_assoc. reflexivity.
  - reflexivity.
  - reflexivity.
  - exact Hsamples.
  - intros H4. rewrite len_app, (len_flat_map_const _ 4) by exact H4.
    rewrite Hsamples.
    match goal with |- len ?h + _ = _ => change (len h) with 44 end. lia.
Qed.

(** X20: with no series in the store, [exportChartData] for the whole
    store downloads a CSV file whose text is "No data available", but
    throws "No data available" for WAV and downloads nothing. *)
Theorem exportChartData_without_series (label : string)
  (snapshot : ViewPortData) (store : RingStore) (options : ChartExportOptions) :
  scope options = all -> getSeries store = [] ->
  exportChartData label snapshot store options
  = match format options with
    | csv =>
        Downloads (CsvContent "No data available")
          (String.append "chart-data-all-" (String.append label ".csv"))
          "text/csv"
    | wav => ExportThrows "No data available"
    end.
Proof.
  intros Hscope Hseries. unfold exportChartData.
  rewrite Hscope.
  unfold exportAllChartDataAsCsv, exportAllChartDataAsWav.
  rewrite Hseries. now destruct (format options).
Qed.

End WithNumbers.

Lemma exportVisibleChartDataAsCsv_rows_witness :
  snapshot_in_Date_range sample_snapshot (iso_options visible) /\
  exportVisibleChartDataAsCsv sample_snapshot (iso_options visible)
  = Returns (String.concat newline ["Timestamp,a,b"; "T20,2,5"; "T30,3,"]%string).
Proof.
  assert (Hrange : snapshot_in_Date_range sample_snapshot (iso_options visible)).
  { intros _. repeat constructor; intros _; discriminate. }
  split; [exact Hrange|].
  refine (eq_trans
    (exportVisibleChartDataAsCsv_rows sample_snapshot (iso_options visible)
       _ _ Hrange)
    _); [discriminate | discriminate | vm_compute; reflexivity].
Defined.

Lemma exports_agree_witness :
  exportAllChartDataAsCsv sample_store (iso_options all)
  = exportVisibleChartDataAsCsv sample_snapshot (iso_options all).
Proof.
  apply exports_agree.
  - discriminate.
  - reflexivity.
  - reflexivity.
  - unfold shows_all.
    split; [reflexivity|]. split; [reflexivity|]. split; [reflexivity|].
    split.
    + intros [|[|k]] Hk; [reflexivity | reflexivity | simpl in Hk; lia].
    + intros [|[|s]] [|[|k]] Hs Hk; try reflexivity; simpl in Hs, Hk; lia.
Defined.

Lemma exportAllChartDataAsCsv_RangeError_witness :
  exportAllChartDataAsCsv far_store (iso_options all) = RangeError.
Proof.
  apply (exportAllChartDataAsCsv_RangeError far_store (iso_options all)
           (num 10000000000000000)).
  - discriminate.
  - reflexivity.
  - reflexivity.
  - split; reflexivity.
  - reflexivity.
  - reflexivity.
  - reflexivity.
Defined.

Lemma exportAllChartDataAsWav_layout_witness :
  exists header,
    exportAllChartDataAsWav sample_store
    = Returns (header ++ [2; 0; 0; 0; 5; 0; 0; 0; 3; 0; 0; 0; 0; 0; 0; 0]) /\
    len header = 44.
Proof.
  destruct (exportAllChartDataAsWav_layout sample_store)
    as [header [Hwav [Hlen _]]]; [discriminate | reflexivity | reflexivity |].
  exists header. split; [exact Hwav | exact Hlen].
Defined.

Lemma exportChartData_without_series_witness :
  exportChartData "2026-01-01T00-00-00" empty_snapshot
    {| getSeries := []; getCapacity := 2; writeIndex := 0;
       times := [NaN; NaN]; buffers := []; firstTimestamp := None |}
    (wav_options all)
  = ExportThrows "No data available".
Proof.
  apply (exportChartData_without_series "2026-01-01T00-00-00" empty_snapshot
           {| getSeries := []; getCapacity := 2; writeIndex := 0;
              times := [NaN; NaN]; buffers := []; firstTimestamp := None |}
           (wav_options all)); reflexivity.
Defined.

End ChartExportMore.
